(** * Orchestrator: session documents, phase progression, archival and
    registry audit

    A shallow embedding of the Python sources
      - [mcp_server/session.py]  (session codec and the MCP tools),
      - [main.py]                (phase scanning, completion test, archival),
      - [audit.py]               (registry validation, generation, audit),
    together with the properties of the specification that can be stated
    over it.

    Text is a list of 8-bit characters.  The character classes of Python's
    [re] module and of [str.strip] are rendered for the ASCII range; a
    character above 127 is an ordinary symbol (not white space, not a
    digit, not a word character, without case). *)

From Stdlib Require Import String.
From Stdlib Require Import List Ascii ZArith NArith Lia Bool Arith Sorted.
From Stdlib Require Import PrimFloat.
Import ListNotations.

Local Open Scope list_scope.

(* ================================================================== *)
(** * Python strings *)
(* ================================================================== *)

Module Py.

Definition str := list ascii.

(** A literal of the source. *)
Definition L (s : string) : str := list_ascii_of_string s.
Arguments L s%_string.

Definition nl : ascii := "010"%char.

Definition code (a : ascii) : N := N_of_ascii a.

Definition between (lo hi : N) (a : ascii) : bool :=
  (N.leb lo (code a) && N.leb (code a) hi)%bool.

(** [\s] and [str.isspace]: TAB, LF, VT, FF, CR, FS, GS, RS, US, space. *)
Definition is_space (a : ascii) : bool :=
  (between 9 13 a || between 28 32 a)%bool.

(** [\S] *)
Definition is_nonspace (a : ascii) : bool := negb (is_space a).

(** [\d] *)
Definition is_digit (a : ascii) : bool := between 48 57 a.

(** [\w] *)
Definition is_word (a : ascii) : bool :=
  (is_digit a || between 65 90 a || between 97 122 a || Ascii.eqb a "_")%bool.

(** [.] without DOTALL: anything but a line feed. *)
Definition is_dot (a : ascii) : bool := negb (Ascii.eqb a nl).

(** [[\s\S]], and [.] with DOTALL. *)
Definition is_any (a : ascii) : bool := true.

Definition is_nl (a : ascii) : bool := Ascii.eqb a nl.

Definition is_upper (a : ascii) : bool := between 65 90 a.
Definition is_lower (a : ascii) : bool := between 97 122 a.

Definition lower (a : ascii) : ascii :=
  if is_upper a then ascii_of_N (code a + 32) else a.

Definition upper (a : ascii) : ascii :=
  if is_lower a then ascii_of_N (code a - 32) else a.

(** Equality of characters under [re.IGNORECASE]. *)
Definition eqb_ci (x a : ascii) : bool := Ascii.eqb (lower x) (lower a).

Fixpoint str_eqb (x y : str) : bool :=
  match x, y with
  | [], [] => true
  | a :: x', b :: y' => (Ascii.eqb a b && str_eqb x' y')%bool
  | _, _ => false
  end.

(** [s.startswith(p)] *)
Fixpoint startswith (p s : str) : bool :=
  match p with
  | [] => true
  | x :: p' =>
      match s with
      | a :: s' => (Ascii.eqb x a && startswith p' s')%bool
      | [] => false
      end
  end.

(** [s.endswith(p)] *)
Definition endswith (p s : str) : bool :=
  startswith (rev p) (rev s).

(** [p in s] *)
Fixpoint contains (p s : str) : bool :=
  (startswith p s ||
   match s with
   | [] => false
   | _ :: s' => contains p s'
   end)%bool.

Fixpoint dropwhile (p : ascii -> bool) (s : str) : str :=
  match s with
  | a :: s' => if p a then dropwhile p s' else s
  | [] => []
  end.

Definition lstrip (s : str) : str := dropwhile is_space s.
Definition rstrip (s : str) : str := rev (dropwhile is_space (rev s)).

(** [s.strip()] *)
Definition strip (s : str) : str := rstrip (lstrip s).

Definition in_chars (cs : str) (a : ascii) : bool :=
  existsb (Ascii.eqb a) cs.

(** [s.lstrip(cs)] and [s.strip(cs)] with a set of characters. *)
Definition lstrip_chars (cs s : str) : str := dropwhile (in_chars cs) s.
Definition strip_chars (cs s : str) : str :=
  rev (dropwhile (in_chars cs) (rev (dropwhile (in_chars cs) s))).

(** [s.split(c)] for a one-character separator: never the empty list. *)
Fixpoint split (c : ascii) (s : str) : list str :=
  match s with
  | [] => [[]]
  | a :: s' =>
      if Ascii.eqb a c then [] :: split c s'
      else
        match split c s' with
        | w :: ws => (a :: w) :: ws
        | [] => [[a]]
        end
  end.

(** [s.split(c, 1)]: at most one cut. *)
Fixpoint split1 (c : ascii) (s : str) : list str :=
  match s with
  | [] => [[]]
  | a :: s' =>
      if Ascii.eqb a c then [[]; s']
      else
        match split1 c s' with
        | w :: ws => (a :: w) :: ws
        | [] => [[a]]
        end
  end.

(** [sep.join(items)] *)
Fixpoint join (sep : str) (items : list str) : str :=
  match items with
  | [] => []
  | [x] => x
  | x :: rest => x ++ sep ++ join sep rest
  end.

(** [s.replace(a, b)] for single characters. *)
Definition replace_char (a b : ascii) (s : str) : str :=
  map (fun x => if Ascii.eqb x a then b else x) s.

(** [s.title()]: the first cased character of every run of cased
    characters in upper case, the others in lower case. *)
Fixpoint title_from (prev_cased : bool) (s : str) : str :=
  match s with
  | [] => []
  | a :: s' =>
      let cased := (is_upper a || is_lower a)%bool in
      (if cased then (if prev_cased then lower a else upper a) else a)
        :: title_from cased s'
  end.

Definition title (s : str) : str := title_from false s.

(** ** Integers to text and back *)

Definition digit_char (d : Z) : ascii := ascii_of_N (Z.to_N (48 + d)).
Definition digit_val (a : ascii) : Z := Z.of_N (code a) - 48.

(** The decimal digits of a non-negative integer, most significant first;
    [fuel] bounds the number of digits. *)
Fixpoint digits_of (fuel : nat) (n : Z) : str :=
  match fuel with
  | O => []
  | S f =>
      if (n <? 10)%Z then [digit_char n]
      else digits_of f (n / 10)%Z ++ [digit_char (n mod 10)%Z]
  end.

(** [str(n)] for an [int]. *)
Definition str_of_int (n : Z) : str :=
  if (n <? 0)%Z
  then "-"%char :: digits_of (S (Z.to_nat (Z.log2 (- n)))) (- n)
  else digits_of (S (Z.to_nat (Z.log2 n))) n.

(** Digits with single underscores between them, as [int()] reads them.
    [after_digit] tells that the character before was a digit. *)
Fixpoint int_digits (after_digit : bool) (acc : Z) (s : str) : option Z :=
  match s with
  | [] => if after_digit then Some acc else None
  | a :: s' =>
      if is_digit a then int_digits true (10 * acc + digit_val a)%Z s'
      else if (Ascii.eqb a "_" && after_digit)%bool then int_digits false acc s'
      else None
  end.

(** [int(s)]; [None] stands for [ValueError]. *)
Definition int (s : str) : option Z :=
  match strip s with
  | a :: t =>
      if Ascii.eqb a "+" then int_digits false 0%Z t
      else if Ascii.eqb a "-" then option_map Z.opp (int_digits false 0%Z t)
      else int_digits false 0%Z (a :: t)
  | [] => None
  end.

End Py.

(* ================================================================== *)
(** * The fragment of Python's [re] that the sources use *)
(* ================================================================== *)

Module Re.
Import Py.

(** Patterns.  [Group n r] is the [n]-th capturing parenthesis; [Star] is
    the greedy [*], [Lazy] the reluctant [*?]; [Bol] and [Eol] are [^] and
    [$] under [re.MULTILINE], [Bos] is [^] without it, [EndZ] is [\Z];
    [Ahead r] is [(?=r)]; [LitI] is a literal under [re.IGNORECASE]. *)
Inductive regex : Type :=
| Eps
| Cls (p : ascii -> bool)
| Lit (l : str)
| LitI (l : str)
| Seq (r1 r2 : regex)
| Alt (r1 r2 : regex)
| Star (r : regex)
| Lazy (r : regex)
| Group (n : nat) (r : regex)
| Bol
| Bos
| Eol
| EndZ
| Ahead (r : regex).

(** [r+] and [r?] *)
Definition Plus (r : regex) : regex := Seq r (Star r).
Definition Opt (r : regex) : regex := Alt r Eps.

(** The text captured by each group, most recent first. *)
Definition caps := list (nat * str).

Fixpoint group (c : caps) (n : nat) : option str :=
  match c with
  | [] => None
  | (i, x) :: c' => if Nat.eqb i n then Some x else group c' n
  end.

(** A position is the character before it (if any) and the text after
    it; a match ends at a position with its captures. *)
Definition mres : Type := option ascii * str * caps.
Definition cont : Type := option ascii -> str -> caps -> option mres.

Definition done : cont := fun prev s c => Some (prev, s, c).

Fixpoint lit_k (eqc : ascii -> ascii -> bool) (l : str) (k : cont) : cont :=
  match l with
  | [] => k
  | x :: l' =>
      fun prev s c =>
        match s with
        | a :: s' => if eqc x a then lit_k eqc l' k (Some a) s' c else None
        | [] => None
        end
  end.

(** Greedy repetition: one more round of the body first, the rest of the
    pattern when that fails.  A round has to consume text. *)
Fixpoint star_loop (body : cont -> cont) (k : cont) (fuel : nat) : cont :=
  fun prev s c =>
    match fuel with
    | O => k prev s c
    | S f =>
        match body (fun p' s' c' =>
                      if Nat.ltb (length s') (length s)
                      then star_loop body k f p' s' c'
                      else None) prev s c with
        | Some x => Some x
        | None => k prev s c
        end
    end.

(** Reluctant repetition: the rest of the pattern first. *)
Fixpoint lazy_loop (body : cont -> cont) (k : cont) (fuel : nat) : cont :=
  fun prev s c =>
    match k prev s c with
    | Some x => Some x
    | None =>
        match fuel with
        | O => None
        | S f =>
            body (fun p' s' c' =>
                    if Nat.ltb (length s') (length s)
                    then lazy_loop body k f p' s' c'
                    else None) prev s c
        end
    end.

(** The backtracking matcher, in continuation-passing style: [m r k] tries
    the ways [r] can match at a position in Python's order of preference
    and hands each end position to [k] until [k] succeeds. *)
Fixpoint m (r : regex) (k : cont) {struct r} : cont :=
  match r with
  | Eps => k
  | Cls p =>
      fun prev s c =>
        match s with
        | a :: s' => if p a then k (Some a) s' c else None
        | [] => None
        end
  | Lit l => lit_k Ascii.eqb l k
  | LitI l => lit_k eqb_ci l k
  | Seq r1 r2 => m r1 (m r2 k)
  | Alt r1 r2 =>
      fun prev s c =>
        match m r1 k prev s c with
        | Some x => Some x
        | None => m r2 k prev s c
        end
  | Star r1 => fun prev s c => star_loop (m r1) k (S (length s)) prev s c
  | Lazy r1 => fun prev s c => lazy_loop (m r1) k (S (length s)) prev s c
  | Group n r1 =>
      fun prev s c =>
        m r1 (fun p' s' c' =>
                k p' s' ((n, firstn (length s - length s') s) :: c'))
          prev s c
  | Bol =>
      fun prev s c =>
        match prev with
        | None => k prev s c
        | Some a => if is_nl a then k prev s c else None
        end
  | Bos =>
      fun prev s c =>
        match prev with
        | None => k prev s c
        | Some _ => None
        end
  | Eol =>
      fun prev s c =>
        match s with
        | [] => k prev s c
        | a :: _ => if is_nl a then k prev s c else None
        end
  | EndZ =>
      fun prev s c =>
        match s with
        | [] => k prev s c
        | _ :: _ => None
        end
  | Ahead r1 =>
      fun prev s c =>
        match m r1 done prev s c with
        | Some (_, _, c') => k prev s c'
        | None => None
        end
  end.

(** [re.match(r, s)]: a match at the start of [s]. *)
Definition re_match (r : regex) (s : str) : option caps :=
  option_map snd (m r done None s []).

(** The leftmost match at or after a position. *)
Fixpoint search_from (r : regex) (prev : option ascii) (s : str)
  : option mres :=
  match m r done prev s [] with
  | Some x => Some x
  | None =>
      match s with
      | [] => None
      | a :: s' => search_from r (Some a) s'
      end
  end.

(** [re.search(r, s)] *)
Definition re_search (r : regex) (s : str) : option caps :=
  option_map snd (search_from r None s).

(** [re.findall(r, s)] for a pattern with one group: the text of group 1
    of every match, left to right, the matches not overlapping. *)
Fixpoint findall_from (r : regex) (fuel : nat) (prev : option ascii) (s : str)
  : list str :=
  match fuel with
  | O => []
  | S f =>
      match m r done prev s [] with
      | Some (p', s', c) =>
          let g := match group c 1 with Some x => x | None => [] end in
          if Nat.ltb (length s') (length s)
          then g :: findall_from r f p' s'
          else
            match s with
            | [] => [g]
            | a :: t => g :: findall_from r f (Some a) t
            end
      | None =>
          match s with
          | [] => []
          | a :: t => findall_from r f (Some a) t
          end
      end
  end.

Definition re_findall (r : regex) (s : str) : list str :=
  findall_from r (S (length s)) None s.

End Re.

Declare Scope re_scope.
Delimit Scope re_scope with re.
Bind Scope re_scope with Re.regex.
Infix "+>" := Re.Seq (at level 61, right associativity) : re_scope.

(** Code that can raise: [None] is the exception. *)
Notation "x <- e ;; k" :=
  (match e with Some x => k | None => None end)
  (at level 62, e at next level, right associativity, only parsing).

(* ================================================================== *)
(** * [mcp_server/session.py] *)
(* ================================================================== *)

Module Session.
Import Py Re.

Record Phase : Type := mkPhase {
  number : Z;
  complete : bool;
  agent : str;
  description : str
}.

Record Session : Type := mkSession {
  name : str;
  phase : Z;
  total_phases : Z;
  current_agent : str;
  state : str;
  user_request : str;
  phases : list Phase;
  work_log : str
}.

Definition placeholder : str := L "(agents will update this)".

(** ** The patterns of [parse_session] *)

(** [^# Session: (.+)$] with [re.MULTILINE] *)
Definition re_name : regex :=
  (Bol +> Lit (L "# Session: ") +> Group 1 (Plus (Cls is_dot)) +> Eol)%re.

(** [## Status\s*\n((?:- .+\n)+)] *)
Definition re_status : regex :=
  (Lit (L "## Status") +> Star (Cls is_space) +> Cls is_nl +>
   Group 1 (Plus (Lit (L "- ") +> Plus (Cls is_dot) +> Cls is_nl)))%re.

(** [Phase: (\d+) of (\d+)] *)
Definition re_phase_of : regex :=
  (Lit (L "Phase: ") +> Group 1 (Plus (Cls is_digit)) +>
   Lit (L " of ") +> Group 2 (Plus (Cls is_digit)))%re.

(** [Current Agent: (\S+)] *)
Definition re_current_agent : regex :=
  (Lit (L "Current Agent: ") +> Group 1 (Plus (Cls is_nonspace)))%re.

(** [State: (\w+)] *)
Definition re_state : regex :=
  (Lit (L "State: ") +> Group 1 (Plus (Cls is_word)))%re.

(** [<heading>\s*\n([\s\S]*?)(?=\n## |\Z)], for the headings
    [## User Request] and [## Work Log] *)
Definition re_block (heading : str) : regex :=
  (Lit heading +> Star (Cls is_space) +> Cls is_nl +>
   Group 1 (Lazy (Cls is_any)) +>
   Ahead (Alt (Lit (nl :: L "## ")) EndZ))%re.

Definition re_user_request : regex := re_block (L "## User Request").
Definition re_work_log : regex := re_block (L "## Work Log").

(** [## Phases\s*\n((?:\d+\. .+\n)+)] *)
Definition re_phases : regex :=
  (Lit (L "## Phases") +> Star (Cls is_space) +> Cls is_nl +>
   Group 1 (Plus (Plus (Cls is_digit) +> Lit (L ". ") +>
                  Plus (Cls is_dot) +> Cls is_nl)))%re.

Definition is_x_or_blank (a : ascii) : bool :=
  (Ascii.eqb a "x" || Ascii.eqb a " ")%bool.

(** [(\d+)\. \[([x ])\] (\S+) - (.+)] *)
Definition re_phase_line : regex :=
  (Group 1 (Plus (Cls is_digit)) +> Lit (L ". [") +>
   Group 2 (Cls is_x_or_blank) +> Lit (L "] ") +>
   Group 3 (Plus (Cls is_nonspace)) +> Lit (L " - ") +>
   Group 4 (Plus (Cls is_dot)))%re.

(** One round of the loop over the lines of the phase list: the phase of
    a line of the required shape, [None] for any other line. *)
Definition phase_of_line (line : str) : option (option Phase) :=
  match re_match re_phase_line (strip line) with
  | Some mt =>
      g1 <- group mt 1 ;;
      n <- int g1 ;;
      g2 <- group mt 2 ;;
      g3 <- group mt 3 ;;
      g4 <- group mt 4 ;;
      Some (Some {| number := n;
                    complete := str_eqb g2 (L "x");
                    agent := g3;
                    description := g4 |})
  | None => Some None
  end.

Fixpoint phases_of_lines (lines : list str) : option (list Phase) :=
  match lines with
  | [] => Some []
  | line :: rest =>
      r <- phase_of_line line ;;
      ps <- phases_of_lines rest ;;
      Some (match r with Some p => p :: ps | None => ps end)
  end.

(** ** [parse_session] *)

Definition parse_name (content : str) : option str :=
  match re_search re_name content with
  | Some mt => g <- group mt 1 ;; Some (strip g)
  | None => Some (L "")
  end.

Definition parse_phase_of (status : str) : option (Z * Z) :=
  match re_search re_phase_of status with
  | Some mt =>
      g1 <- group mt 1 ;;
      p <- int g1 ;;
      g2 <- group mt 2 ;;
      t <- int g2 ;;
      Some (p, t)
  | None => Some (0%Z, 0%Z)
  end.

Definition parse_current_agent (status : str) : option str :=
  match re_search re_current_agent status with
  | Some mt => group mt 1
  | None => Some (L "")
  end.

Definition parse_state (status : str) : option str :=
  match re_search re_state status with
  | Some mt => group mt 1
  | None => Some (L "unknown")
  end.

Definition parse_status (content : str) : option (Z * Z * str * str) :=
  match re_search re_status content with
  | Some mt =>
      status <- group mt 1 ;;
      pt <- parse_phase_of status ;;
      ca <- parse_current_agent status ;;
      st <- parse_state status ;;
      Some (fst pt, snd pt, ca, st)
  | None => Some (0%Z, 0%Z, L "", L "unknown")
  end.

Definition parse_block (r : regex) (content : str) : option str :=
  match re_search r content with
  | Some mt => g <- group mt 1 ;; Some (strip g)
  | None => Some (L "")
  end.

Definition parse_phase_list (content : str) : option (list Phase) :=
  match re_search re_phases content with
  | Some mt =>
      g <- group mt 1 ;;
      phases_of_lines (split nl (strip g))
  | None => Some []
  end.

Definition parse_session (content : str) : option Session :=
  nm <- parse_name content ;;
  st <- parse_status content ;;
  ur <- parse_block re_user_request content ;;
  ps <- parse_phase_list content ;;
  wl <- parse_block re_work_log content ;;
  let '(p, t, ca, sta) := st in
  Some {| name := nm;
          phase := p;
          total_phases := t;
          current_agent := ca;
          state := sta;
          user_request := ur;
          phases := ps;
          work_log := wl |}.

(** ** [format_session] *)

Definition format_phase (p : Phase) : str :=
  str_of_int (number p) ++ L ". [" ++
  (if complete p then L "x" else L " ") ++ L "] " ++
  agent p ++ L " - " ++ description p.

Definition format_session (s : Session) : str :=
  let phases_text := join [nl] (map format_phase (phases s)) in
  let log := match work_log s with [] => placeholder | w => w end in
  L "# Session: " ++ name s ++ [nl] ++
  [nl] ++
  L "## Status" ++ [nl] ++
  L "- Phase: " ++ str_of_int (phase s) ++ L " of " ++
    str_of_int (total_phases s) ++ [nl] ++
  L "- Current Agent: " ++ current_agent s ++ [nl] ++
  L "- State: " ++ state s ++ [nl] ++
  [nl] ++
  L "## User Request" ++ [nl] ++
  user_request s ++ [nl] ++
  [nl] ++
  L "## Phases" ++ [nl] ++
  phases_text ++ [nl] ++
  [nl] ++
  L "## Work Log" ++ [nl] ++
  log ++ [nl].

(** ** The phase state machine inside the tools *)

(** The [for ... else] loop of [session_mark_phase_complete]: the first
    phase numbered [k] gets its flag set and its agent is returned; [None]
    when the loop ends without [break]. *)
Fixpoint mark_first (ps : list Phase) (k : Z) : option (list Phase * str) :=
  match ps with
  | [] => None
  | p :: ps' =>
      if (number p =? k)%Z
      then Some ({| number := number p; complete := true;
                    agent := agent p; description := description p |} :: ps',
                 agent p)
      else
        match mark_first ps' k with
        | Some (ps'', a) => Some (p :: ps'', a)
        | None => None
        end
  end.

(** The first phase whose flag is not set. *)
Definition next_incomplete (ps : list Phase) : option Phase :=
  find (fun p => negb (complete p)) ps.

Definition log_entry (k : Z) (phase_agent notes : str) : str :=
  L "### Phase " ++ str_of_int k ++ L " (" ++ phase_agent ++ L ")" ++
  [nl] ++ notes.

Definition add_notes (log : str) (k : Z) (phase_agent notes : str) : str :=
  match notes with
  | [] => log
  | _ =>
      if (negb (str_eqb log []) && negb (str_eqb log placeholder))%bool
      then log ++ [nl; nl] ++ log_entry k phase_agent notes
      else log_entry k phase_agent notes
  end.

Inductive MarkError : Type :=
| NoSessionFile
| PhaseNotFound (k : Z).

(** The update of the parsed session between reading and writing the
    file in [session_mark_phase_complete]. *)
Definition mark_complete (s : Session) (k : Z) (notes : str)
  : MarkError + Session :=
  match mark_first (phases s) k with
  | None => inl (PhaseNotFound k)
  | Some (ps, phase_agent) =>
      let nxt := next_incomplete ps in
      inr {| name := name s;
             phase := match nxt with Some q => number q | None => phase s end;
             total_phases := total_phases s;
             current_agent :=
               match nxt with Some q => agent q | None => L "none" end;
             state :=
               match nxt with Some _ => L "pending" | None => L "complete" end;
             user_request := user_request s;
             phases := ps;
             work_log := add_notes (work_log s) k phase_agent notes |}
  end.

(** ** The tools; the session file is [None] when it does not exist *)

Definition error_text (e : MarkError) : str :=
  match e with
  | NoSessionFile => L "No session file found"
  | PhaseNotFound k => L "Phase " ++ str_of_int k ++ L " not found"
  end.

(** The JSON object returned by [session_mark_phase_complete]. *)
Inductive MarkReply : Type :=
| MarkFailed (e : MarkError)
| MarkDone (phase_marked : Z) (next_phase : option Z)
           (next_agent : option str) (all_complete : bool).

Definition session_mark_phase_complete
  (file : option str) (phase_number : Z) (notes : str)
  : option (option str * MarkReply) :=
  match file with
  | None => Some (file, MarkFailed NoSessionFile)
  | Some content =>
      s <- parse_session content ;;
      match mark_complete s phase_number notes with
      | inl e => Some (file, MarkFailed e)
      | inr s' =>
          let nxt := next_incomplete (phases s') in
          Some (Some (format_session s'),
                MarkDone phase_number
                  (option_map number nxt) (option_map agent nxt)
                  (match nxt with None => true | Some _ => false end))
      end
  end.

(** The JSON object returned by [session_get_next_phase]. *)
Inductive NextReply : Type :=
| NextNoSession
| NextPhase (phase_number : Z) (agent description : str)
            (depends_on : list str) (user_request : str)
| NextAllComplete.

(** The loop of [session_get_next_phase] over the phases of a session. *)
Definition get_next_phase (s : Session) : NextReply :=
  match next_incomplete (phases s) with
  | Some p =>
      NextPhase (number p) (agent p) (description p)
        (map agent
           (filter (fun q => (complete q && (number q <? number p)%Z)%bool)
              (phases s)))
        (user_request s)
  | None => NextAllComplete
  end.


(** The JSON object returned by [session_is_complete]. *)
Record CompleteReply : Type := mkCompleteReply {
  is_complete : bool;
  completed_count : nat;
  total_count : nat;
  remaining : list str
}.

Definition remaining_text (p : Phase) : str :=
  str_of_int (number p) ++ L ". " ++ agent p ++ L " - " ++ description p.

Definition is_complete_reply (s : Session) : CompleteReply :=
  let completed := filter complete (phases s) in
  let remaining := filter (fun p => negb (complete p)) (phases s) in
  {| is_complete := Nat.eqb (length remaining) 0;
     completed_count := length completed;
     total_count := length (phases s);
     remaining := map remaining_text remaining |}.

(** [None] in the result is the reply [{"error": "No session file found"}]. *)
Definition session_is_complete (file : option str)
  : option (option CompleteReply) :=
  match file with
  | None => Some None
  | Some content => s <- parse_session content ;; Some (Some (is_complete_reply s))
  end.


End Session.

(* ================================================================== *)
(** * Directories *)
(* ================================================================== *)

Module Fs.
Import Py.

(** A directory: its files by name, each with its text, in the order in
    which the directory is listed. *)
Definition dir : Type := list (str * str).

Definition names (d : dir) : list str := map fst d.

Fixpoint lookup (n : str) (d : dir) : option str :=
  match d with
  | [] => None
  | (x, c) :: d' => if str_eqb x n then Some c else lookup n d'
  end.

Definition remove (n : str) (d : dir) : dir :=
  filter (fun e => negb (str_eqb (fst e) n)) d.

(** [Path.write_text] *)
Definition write (n c : str) (d : dir) : dir := (n, c) :: remove n d.

(** [Path.rename] inside one directory; an existing target is replaced. *)
Definition rename (src dst : str) (d : dir) : dir :=
  match lookup src d with
  | Some c => (dst, c) :: remove dst (remove src d)
  | None => d
  end.

(** [dir.glob(pre + "*" + suf)] on file names. *)
Definition glob_match (pre suf name : str) : bool :=
  (startswith pre name && endswith suf (skipn (length pre) name))%bool.

Fixpoint index_of (c : ascii) (s : str) : option nat :=
  match s with
  | [] => None
  | a :: s' => if Ascii.eqb a c then Some O else option_map S (index_of c s')
  end.

(** [Path(name).stem]: the name without its last suffix; a dot at either
    end of the name does not start a suffix. *)
Definition stem (name : str) : str :=
  match index_of "." (rev name) with
  | Some j =>
      let i := length name - 1 - j in
      if (Nat.ltb 0 i && Nat.ltb 0 j)%bool then firstn i name else name
  | None => name
  end.

End Fs.

(* ================================================================== *)
(** * [main.py] *)
(* ================================================================== *)

Module Orchestrator.
Import Py Re Fs.

(** [parse_phases]: every line of the text, with the pattern of a phase
    line (the one of [session.py]). *)
Definition parse_phases (content : str) : option (list Session.Phase) :=
  Session.phases_of_lines (split nl content).

(** [\d+\. \[([x ])\]] *)
Definition re_checkbox : regex :=
  (Plus (Cls is_digit) +> Lit (L ". [") +>
   Group 1 (Cls Session.is_x_or_blank) +> Lit (L "]"))%re.

(** [is_session_complete], on the session file ([None]: no file). *)
Definition is_session_complete (file : option str) : bool :=
  match file with
  | None => false
  | Some content =>
      if contains (L "State: complete") content then true
      else
        let boxes := re_findall re_checkbox content in
        (negb (Nat.eqb (length boxes) 0) &&
         forallb (fun p => str_eqb p (L "x")) boxes)%bool
  end.

(** [get_current_phase] *)
Definition get_current_phase (file : option str)
  : option (option Session.Phase) :=
  match file with
  | None => Some None
  | Some content =>
      ps <- parse_phases content ;;
      Some (find (fun p => negb (Session.complete p)) ps)
  end.

Definition session_current : str := L "session-current.md".

(** The number of an archive, [int(f.stem.split("-")[1])]; [None] is the
    [except (IndexError, ValueError)] branch. *)
Definition archive_number (fname : str) : option Z :=
  match nth_error (split "-" (stem fname)) 1 with
  | Some t => int t
  | None => None
  end.

(** The loop of [archive_session] over the files found by the glob. *)
Fixpoint max_archive (existing : list str) (max_num : Z) : Z :=
  match existing with
  | [] => max_num
  | f :: rest =>
      if str_eqb f session_current then max_archive rest max_num
      else
        match archive_number f with
        | Some num => max_archive rest (Z.max max_num num)
        | None => max_archive rest max_num
        end
  end.

Definition archive_name (n : Z) : str :=
  L "session-" ++ str_of_int n ++ L ".md".

(** [archive_session], on the tasks directory (the line it prints is
    left out). *)
Definition archive_session (tasks : dir) : dir :=
  match lookup session_current tasks with
  | None => tasks
  | Some _ =>
      let existing :=
        filter (glob_match (L "session-") (L ".md")) (names tasks) in
      let max_num := max_archive existing 0%Z in
      rename session_current (archive_name (max_num + 1)%Z) tasks
  end.

End Orchestrator.

(* ================================================================== *)
(** * [audit.py] *)
(* ================================================================== *)

Module Audit.
Import Py Re Fs.

Record DiscoveredAgent : Type := mkAgent {
  name : str;
  description : str;
  file_name : str;            (* [file_path.name] *)
  owns : list str;
  never_touches : list str
}.

Record AuditResult : Type := mkAuditResult {
  has_claude_dir : bool;
  has_agents_dir : bool;
  has_agents_md : bool;
  agents_md_valid : bool;
  discovered_agents : list DiscoveredAgent;
  issues : list str;
  actions_taken : list str
}.

Definition is_ready (r : AuditResult) : bool :=
  (has_agents_dir r && agents_md_valid r)%bool.

(** ** [parse_agent_file] *)

(** [^---\s*\n(.*?)\n---] with [re.DOTALL], used with [re.match] *)
Definition re_frontmatter : regex :=
  (Bos +> Lit (L "---") +> Star (Cls is_space) +> Cls is_nl +>
   Group 1 (Lazy (Cls is_any)) +> Cls is_nl +> Lit (L "---"))%re.

Definition is_colon_or_space (a : ascii) : bool :=
  (Ascii.eqb a ":" || is_space a)%bool.

Definition is_bullet (a : ascii) : bool :=
  (Ascii.eqb a "-" || Ascii.eqb a "*")%bool.

(** [<label>[:\s]*\n((?:[-*]\s+.+\n?)+)] with [re.IGNORECASE], for the
    labels [Files I OWN] and [NEVER touch] *)
Definition re_paths (label : str) : regex :=
  (LitI label +> Star (Cls is_colon_or_space) +> Cls is_nl +>
   Group 1 (Plus (Cls is_bullet +> Plus (Cls is_space) +>
                  Plus (Cls is_dot) +> Opt (Cls is_nl))))%re.

(** The loop over the lines of the header block: the last [name:] and
    the last [description:] win. *)
Fixpoint header_fields (lines : list str) (nm ds : str) : option (str * str) :=
  match lines with
  | [] => Some (nm, ds)
  | line :: rest =>
      let line := strip line in
      if startswith (L "name:") line then
        v <- nth_error (split1 ":" line) 1 ;;
        header_fields rest (strip v) ds
      else if startswith (L "description:") line then
        v <- nth_error (split1 ":" line) 1 ;;
        header_fields rest nm (strip v)
      else header_fields rest nm ds
  end.

(** The loop over the bullet lines of an ownership section. *)
Fixpoint bullet_paths (lines : list str) : list str :=
  match lines with
  | [] => []
  | line :: rest =>
      let line := strip line in
      if (startswith (L "-") line || startswith (L "*") line)%bool then
        let path := strip_chars (L "`") (lstrip_chars (L "-* ") line) in
        match path with
        | [] => bullet_paths rest
        | _ => path :: bullet_paths rest
        end
      else bullet_paths rest
  end.

Definition scrape_paths (label content : str) : option (list str) :=
  match re_search (re_paths label) content with
  | Some mt => g <- group mt 1 ;; Some (bullet_paths (split nl g))
  | None => Some []
  end.

(** [parse_agent_file] on the name and the text of a file.  The outer
    [option] is an exception, the inner one the [Optional] of the source
    (a file that cannot be read is not modelled). *)
Definition parse_agent_file (fname content : str)
  : option (option DiscoveredAgent) :=
  match re_match re_frontmatter content with
  | None => Some None
  | Some mt =>
      frontmatter <- group mt 1 ;;
      nd <- header_fields (split nl frontmatter) [] [] ;;
      let nm := match fst nd with [] => stem fname | n => n end in
      ow <- scrape_paths (L "Files I OWN") content ;;
      nt <- scrape_paths (L "NEVER touch") content ;;
      Some (Some {| name := nm;
                    description :=
                      match snd nd with
                      | [] => L "Agent from " ++ fname
                      | d => firstn 100 d
                      end;
                    file_name := fname;
                    owns := ow;
                    never_touches := nt |})
  end.

(** ** [validate_agents_md] *)

(** [(section_name, pattern)], the patterns under [re.IGNORECASE] *)
Definition required_sections : list (str * regex) :=
  [ (L "Agent Registry", Alt (LitI (L "Agent Registry")) (LitI (L "## Agents")));
    (L "Ownership Matrix", LitI (L "Ownership Matrix"));
    (L "Routing Table", LitI (L "Routing Table")) ].

Fixpoint missing_sections (sections : list (str * regex)) (content : str)
  : list str :=
  match sections with
  | [] => []
  | (section_name, pattern) :: rest =>
      match re_search pattern content with
      | Some _ => missing_sections rest content
      | None =>
          (L "Missing section: " ++ section_name)
            :: missing_sections rest content
      end
  end.

Definition validate_agents_md (content : str) : bool * list str :=
  let issues := missing_sections required_sections content in
  (Nat.eqb (length issues) 0, issues).

(** ** [generate_agents_md] *)

Definition backticked (p : str) : str := L "`" ++ p ++ L "`".

Definition or_tbd (s : str) : str :=
  match s with [] => L "TBD" | _ => s end.

Definition registry_row (a : DiscoveredAgent) : str :=
  L "| " ++ name a ++ L " | `" ++ file_name a ++ L "` | " ++
  firstn 50 (description a) ++ L "... |".

Definition ownership_row (a : DiscoveredAgent) : str :=
  let own := or_tbd (join (L ", ") (map backticked (firstn 3 (owns a)))) in
  let never :=
    or_tbd (join (L ", ") (map backticked (firstn 3 (never_touches a)))) in
  L "| `" ++ name a ++ L "` | " ++ own ++ L " | " ++ never ++ L " |".

Definition routing_row (a : DiscoveredAgent) : str :=
  let trigger :=
    match description a with [] => name a | d => firstn 30 d end in
  L "| " ++ trigger ++ L " | `" ++ name a ++ L "` |".

Definition generate_agents_md (agents : list DiscoveredAgent)
  (project_name : str) : str :=
  L "# " ++ project_name ++ L " Agent System

This document is the **single source of truth** for agent coordination.

---

## Agent Registry

| Agent | File | Purpose |
|-------|------|---------|
" ++ join [nl] (map registry_row agents) ++ L "

---

## Ownership Matrix

**Each agent has EXCLUSIVE ownership of specific file paths.**

| Agent | OWNS (only they modify) | NEVER touches |
|-------|-------------------------|---------------|
" ++ join [nl] (map ownership_row agents) ++ L "

---

## Routing Table

| IF task involves... | SPAWN this agent |
|---------------------|------------------|
" ++ join [nl] (map routing_row agents) ++ L "

---

## Dependency Graph

```
[Define execution order here]
    │
    ▼
finalize (ALWAYS last)
```

---

## Notes

This AGENTS.md was auto-generated by the orchestrator.
Review and customize the ownership matrix and routing table.
".

(** ** [generate_minimal_agents_md] *)

Definition generate_minimal_agents_md (project_name : str) : str :=
  L "# " ++ project_name ++ L " Agent System

This document is the **single source of truth** for agent coordination.

---

## Agent Registry

| Agent | File | Purpose |
|-------|------|---------|
| (no domain agents defined) | - | - |

---

## Ownership Matrix

| Agent | OWNS (only they modify) | NEVER touches |
|-------|-------------------------|---------------|
| (define domain agents) | - | - |

---

## Routing Table

| IF task involves... | SPAWN this agent |
|---------------------|------------------|
| (define routing rules) | - |

---

## Adding Domain Agents

1. Create `.claude/agents/your-agent.md` with:
   ```markdown
   ---
   name: your-agent
   description: What this agent does
   ---

   You are the [Name] Agent...

   ## Files I OWN:
   - path/to/files/

   ## Files I NEVER touch:
   - other/paths/
   ```

2. Update this AGENTS.md to register the agent

---

## Notes

This is a minimal template. Add domain-specific agents for your project.
".

(** ** [audit_project] *)

(** The part of a project the audit looks at: the name of its directory,
    whether [.claude/] and [.claude/tasks/] exist, and [.claude/agents/]
    ([None] when it does not exist). *)
Record Project : Type := mkProject {
  project_name : str;
  claude_dir : bool;
  agents_dir : option dir;
  tasks_dir : bool
}.

Definition agents_md : str := L "AGENTS.md".

(** The discovery loop over [agents_dir.glob("*.md")]. *)
Fixpoint discover (files : dir) : option (list DiscoveredAgent) :=
  match files with
  | [] => Some []
  | (fname, content) :: rest =>
      if negb (glob_match [] (L ".md") fname) then discover rest
      else if str_eqb fname agents_md then discover rest
      else
        a <- parse_agent_file fname content ;;
        ds <- discover rest ;;
        Some (match a with Some x => x :: ds | None => ds end)
  end.

Definition audit_project (p : Project) (auto_fix : bool)
  : option (AuditResult * Project) :=
  let has_claude := claude_dir p in
  let has_agents := match agents_dir p with Some _ => true | None => false end in
  let files := match agents_dir p with Some d => d | None => [] end in
  let registry := lookup agents_md files in
  let has_md := match registry with Some _ => true | None => false end in
  discovered <- discover files ;;
  let '(valid, issues0) :=
    match registry with
    | Some content => validate_agents_md content
    | None => (false, [L "AGENTS.md not found"])
    end in
  if negb auto_fix then
    Some ({| has_claude_dir := has_claude;
             has_agents_dir := has_agents;
             has_agents_md := has_md;
             agents_md_valid := valid;
             discovered_agents := discovered;
             issues := issues0;
             actions_taken := [] |}, p)
  else
    let actions1 :=
      (if has_claude then [] else [L "Created .claude/ directory"]) ++
      (if has_agents then [] else [L "Created .claude/agents/ directory"]) ++
      (if tasks_dir p then [] else [L "Created .claude/tasks/ directory"]) in
    if (negb has_md || negb valid)%bool then
      let '(content, action) :=
        match discovered with
        | _ :: _ =>
            (generate_agents_md discovered
               (title (replace_char "-" " " (project_name p))),
             L "Generated AGENTS.md from " ++
             str_of_int (Z.of_nat (length discovered)) ++
             L " discovered agents")
        | [] =>
            (generate_minimal_agents_md (project_name p),
             L "Created minimal AGENTS.md template")
        end in
      Some ({| has_claude_dir := true;
               has_agents_dir := true;
               has_agents_md := true;
               agents_md_valid := true;
               discovered_agents := discovered;
               issues :=
                 filter (fun i => negb (contains (L "AGENTS.md") i)) issues0;
               actions_taken := actions1 ++ [action] |},
            {| project_name := project_name p;
               claude_dir := true;
               agents_dir := Some (write agents_md content files);
               tasks_dir := true |})
    else
      Some ({| has_claude_dir := true;
               has_agents_dir := true;
               has_agents_md := has_md;
               agents_md_valid := valid;
               discovered_agents := discovered;
               issues := issues0;
               actions_taken := actions1 |},
            {| project_name := project_name p;
               claude_dir := true;
               agents_dir := Some files;
               tasks_dir := true |}).

End Audit.

(* ================================================================== *)
(** * Vocabulary of the specification *)
(* ================================================================== *)

Module PySpec.
Import Py.

(** The value of a run of digits read from the left. *)
Definition digits_value (acc : Z) (x : str) : Z :=
  fold_left (fun v a => (10 * v + digit_val a)%Z) x acc.

End PySpec.

Module ReSpec.
Import Py Re.

(** The character before the position reached after reading [l]. *)
Definition after (l : str) (prev : option ascii) : option ascii :=
  fold_left (fun _ a => Some a) l prev.

(** [matches r prev s c prev' s' c']: the pattern [r] can match from the
    position [(prev, s)] with captures [c] to the position [(prev', s')]
    with captures [c'], whatever the order of preference. *)
Inductive matches : regex -> option ascii -> str -> caps ->
                    option ascii -> str -> caps -> Prop :=
| M_eps prev s c :
    matches Eps prev s c prev s c
| M_cls (p : ascii -> bool) prev a s c :
    p a = true ->
    matches (Cls p) prev (a :: s) c (Some a) s c
| M_lit l prev s c :
    matches (Lit l) prev (l ++ s) c (after l prev) s c
| M_liti l l' prev s c :
    Forall2 (fun x a => eqb_ci x a = true) l l' ->
    matches (LitI l) prev (l' ++ s) c (after l' prev) s c
| M_seq r1 r2 prev s c p1 s1 c1 p2 s2 c2 :
    matches r1 prev s c p1 s1 c1 ->
    matches r2 p1 s1 c1 p2 s2 c2 ->
    matches (Seq r1 r2) prev s c p2 s2 c2
| M_alt_l r1 r2 prev s c p1 s1 c1 :
    matches r1 prev s c p1 s1 c1 ->
    matches (Alt r1 r2) prev s c p1 s1 c1
| M_alt_r r1 r2 prev s c p1 s1 c1 :
    matches r2 prev s c p1 s1 c1 ->
    matches (Alt r1 r2) prev s c p1 s1 c1
| M_star_stop r prev s c :
    matches (Star r) prev s c prev s c
| M_star_round r prev s c p1 s1 c1 p2 s2 c2 :
    matches r prev s c p1 s1 c1 ->
    matches (Star r) p1 s1 c1 p2 s2 c2 ->
    matches (Star r) prev s c p2 s2 c2
| M_lazy_stop r prev s c :
    matches (Lazy r) prev s c prev s c
| M_lazy_round r prev s c p1 s1 c1 p2 s2 c2 :
    matches r prev s c p1 s1 c1 ->
    matches (Lazy r) p1 s1 c1 p2 s2 c2 ->
    matches (Lazy r) prev s c p2 s2 c2
| M_group n r prev s c p1 s1 c1 :
    matches r prev s c p1 s1 c1 ->
    matches (Group n r) prev s c p1 s1
      ((n, firstn (length s - length s1) s) :: c1)
| M_bol_start s c :
    matches Bol None s c None s c
| M_bol_line a s c :
    is_nl a = true ->
    matches Bol (Some a) s c (Some a) s c
| M_bos s c :
    matches Bos None s c None s c
| M_eol_end prev c :
    matches Eol prev [] c prev [] c
| M_eol_line prev a s c :
    is_nl a = true ->
    matches Eol prev (a :: s) c prev (a :: s) c
| M_endz prev c :
    matches EndZ prev [] c prev [] c
| M_ahead r prev s c p1 s1 c1 :
    matches r prev s c p1 s1 c1 ->
    matches (Ahead r) prev s c prev s c1.

(** The greedy repetition of a class of characters, by recursion on the
    text: the longest run first, then shorter ones. *)
Fixpoint greedy (p : ascii -> bool) (k : cont)
  (prev : option ascii) (s : str) (c : caps) : option mres :=
  match s with
  | a :: s' =>
      if p a then
        match greedy p k (Some a) s' c with
        | Some x => Some x
        | None => k prev s c
        end
      else k prev s c
  | [] => k prev s c
  end.



(** A run of [p] ends before [t]. *)
Definition stops (p : ascii -> bool) (t : str) : Prop :=
  match t with
  | [] => True
  | b :: _ => p b = false
  end.

(** Whether every match of a pattern sets group [n]. *)
Fixpoint defines (r : regex) (n : nat) : bool :=
  match r with
  | Group i r1 => (Nat.eqb i n || defines r1 n)%bool
  | Seq r1 r2 => (defines r1 n || defines r2 n)%bool
  | Alt r1 r2 => (defines r1 n && defines r2 n)%bool
  | Ahead r1 => defines r1 n
  | _ => false
  end.

(** [l] occurs in [s], letter case apart. *)
Definition mentions (l s : str) : Prop :=
  exists pre mid post,
    s = pre ++ mid ++ post /\ Forall2 (fun x a => eqb_ci x a = true) l mid.

End ReSpec.

Module AuditSpec.
Import Py ReSpec.

(** The registry section is recognised by either of two markers. *)
Definition registry_present (content : str) : Prop :=
  mentions (L "Agent Registry") content \/ mentions (L "## Agents") content.

End AuditSpec.

Module SessionSpec.
Import Py Session.

Definition all_complete (ps : list Phase) : Prop :=
  Forall (fun q => complete q = true) ps.

(** [r] is the first phase of [ps], in the order of the list, whose flag
    is not set; none when every flag is set. *)
Definition first_incomplete (ps : list Phase) (r : option Phase) : Prop :=
  match r with
  | Some p =>
      exists pre post,
        ps = pre ++ p :: post /\ all_complete pre /\ complete p = false
  | None => all_complete ps
  end.


(** The invariant of the data model: the numbers of the phases increase
    strictly in the order of the document. *)
Definition increasing (ps : list Phase) : Prop :=
  StronglySorted Z.lt (map number ps).

Definition with_flag_set (p : Phase) : Phase :=
  {| number := number p; complete := true;
     agent := agent p; description := description p |}.

(** *** Sessions that fit the grammar of the document *)

(** A text without the marker of a heading. *)
Definition no_marker (x : str) : bool := negb (contains (L "##") x).

Definition nonempty (x : str) : bool := negb (str_eqb x []).

(** An agent identifier: some characters, none of them white space. *)
Definition token (x : str) : bool :=
  (nonempty x && forallb is_nonspace x && no_marker x)%bool.

(** A phase as a line of the phase list can hold it. *)
Definition phase_fits (p : Phase) : bool :=
  ((0 <=? number p)%Z && token (agent p) &&
   nonempty (description p) && forallb is_dot (description p) &&
   str_eqb (rstrip (description p)) (description p) &&
   no_marker (description p))%bool.

(** A work log as the last block of the document can hold it. *)
Definition log_fits (w : str) : bool :=
  (str_eqb (strip w) w && negb (contains (nl :: L "## ") w))%bool.

(** A session as the document can hold it: a name on one line, counts
    that are not negative, tokens for the agents, a word for the state, a
    request and at least one phase, every text without white space at its
    ends and, the log apart, without the marker of a heading. *)
Definition fits (s : Session) : bool :=
  (nonempty (name s) && forallb is_dot (name s) &&
   str_eqb (strip (name s)) (name s) && no_marker (name s) &&
   (0 <=? phase s)%Z && (0 <=? total_phases s)%Z &&
   token (current_agent s) &&
   nonempty (state s) && forallb is_word (state s) &&
   nonempty (user_request s) &&
   str_eqb (strip (user_request s)) (user_request s) &&
   no_marker (user_request s) &&
   negb (Nat.eqb (length (phases s)) 0) && forallb phase_fits (phases s) &&
   log_fits (work_log s))%bool.













End SessionSpec.

(* ================================================================== *)
(** * Concrete documents and projects *)
(* ================================================================== *)

Module Examples.
Import Py Session.

(** The scenario of the specification: three phases, the first done. *)
Definition scenario_doc : str := L "# Session: demo

## Status
- Phase: 2 of 3
- Current Agent: b
- State: pending

## User Request
build it

## Phases
1. [x] a - x
2. [ ] b - y
3. [ ] c - z

## Work Log
(agents will update this)
".

Definition scenario : Session :=
  {| name := L "demo";
     phase := 2;
     total_phases := 3;
     current_agent := L "b";
     state := L "pending";
     user_request := L "build it";
     phases := [ mkPhase 1 true (L "a") (L "x");
                 mkPhase 2 false (L "b") (L "y");
                 mkPhase 3 false (L "c") (L "z") ];
     work_log := placeholder |}.



(** A session whose request is empty. *)
Definition no_request_session : Session :=
  {| name := L "demo";
     phase := 1;
     total_phases := 1;
     current_agent := L "a";
     state := L "pending";
     user_request := [];
     phases := [ mkPhase 1 false (L "a") (L "x") ];
     work_log := placeholder |}.

(** A session without phases that is still pending. *)
Definition no_phases_doc : str := L "# Session: demo

## Status
- Phase: 0 of 0
- Current Agent: none
- State: pending

## User Request
build it

## Phases

## Work Log
(agents will update this)
".

(** A session whose state reads complete while a phase is not checked. *)
Definition complete_unchecked_doc : str := L "# Session: demo

## Status
- Phase: 1 of 1
- Current Agent: none
- State: complete

## User Request
build it

## Phases
1. [ ] a - x

## Work Log
(agents will update this)
".

(** A phase list with a line of another shape between two phase lines. *)
Definition noted_doc : str := L "# Session: demo

## Status
- Phase: 1 of 2
- Current Agent: a
- State: pending

## User Request
build it

## Phases
1. [ ] a - x
- see the ticket
2. [ ] b - y

## Work Log
(agents will update this)
".



(** A project whose registry has none of the required sections, and no
    agent definitions. *)
Definition invalid_registry_project : Audit.Project :=
  {| Audit.project_name := L "shop";
     Audit.claude_dir := true;
     Audit.agents_dir := Some [ (L "AGENTS.md", L "# Agents of the shop
") ];
     Audit.tasks_dir := true |}.

(** A project with agent definitions' directory and no registry. *)
Definition missing_registry_project : Audit.Project :=
  {| Audit.project_name := L "shop";
     Audit.claude_dir := true;
     Audit.agents_dir := Some [];
     Audit.tasks_dir := true |}.


(** A tasks directory with archives out of order and with a gap. *)
Definition tasks_with_gaps : Fs.dir :=
  [ (L "session-7.md", L "seventh");
    (L "session-current.md", L "current");
    (L "session-2.md", L "second") ].

End Examples.


(* ================================================================== *)
(** * Calls of the tools one after the other *)
(* ================================================================== *)

Module Runs.
Import Py Session.







End Runs.

Module RunExamples.
Import Py Session.


(** The scenario after its second phase has been marked with a note. *)
Definition scenario_marked : Session :=
  {| name := L "demo";
     phase := 3;
     total_phases := 3;
     current_agent := L "c";
     state := L "pending";
     user_request := L "build it";
     phases := [ mkPhase 1 true (L "a") (L "x");
                 mkPhase 2 true (L "b") (L "y");
                 mkPhase 3 false (L "c") (L "z") ];
     work_log := L "### Phase 2 (b)
done" |}.

(** The scenario after all of its phases have been marked. *)
Definition scenario_done : Session :=
  {| name := L "demo";
     phase := 3;
     total_phases := 3;
     current_agent := L "none";
     state := L "complete";
     user_request := L "build it";
     phases := [ mkPhase 1 true (L "a") (L "x");
                 mkPhase 2 true (L "b") (L "y");
                 mkPhase 3 true (L "c") (L "z") ];
     work_log := L "### Phase 2 (b)
done" |}.

End RunExamples.

Module AuditExamples.
Import Py Audit.

(** The definition file of an agent. *)
Definition api_agent_file : str := L "---
name: api
description: Serves the HTTP API
---

You are the API agent.

## Files I OWN:
- `src/api/`
- src/routes/

## Files I NEVER touch:
- web/
".

Definition api_agent : DiscoveredAgent :=
  {| name := L "api";
     description := L "Serves the HTTP API";
     file_name := L "api.md";
     owns := [L "src/api/"; L "src/routes/"];
     never_touches := [L "web/"] |}.

(** A project with that agent, no registry and no tasks directory. *)
Definition agent_project : Project :=
  {| project_name := L "my-shop";
     claude_dir := true;
     agents_dir := Some [ (L "api.md", api_agent_file) ];
     tasks_dir := false |}.


End AuditExamples.


(* ================================================================== *)
(** * [main.py]: the statistics of a run *)
(* ================================================================== *)

Module Stats.
Import Py.

(** A Python [float] is a binary64 number: the primitive [float].
    [bool(x)] of a float is [x != 0.0]. *)
Definition truthy (x : float) : bool := negb (PrimFloat.eqb x PrimFloat.zero).

(** [class PhaseStats] *)
Record PhaseStats : Type := mkPhaseStats {
  phase_number : Z;
  agent : str;
  description : str;
  start_time : option float;
  end_time : option float;
  input_tokens : Z;
  output_tokens : Z;
  completed : bool
}.

(** A [dict] with [int] keys: the entries in the order of insertion. *)
Fixpoint dict_get {V : Type} (k : Z) (d : list (Z * V)) : option V :=
  match d with
  | [] => None
  | (k', v) :: d' => if (k' =? k)%Z then Some v else dict_get k d'
  end.

(** [d[k] = v]: the entry of [k] is replaced where it is, a new key goes
    to the end. *)
Fixpoint dict_set {V : Type} (k : Z) (v : V) (d : list (Z * V)) : list (Z * V) :=
  match d with
  | [] => [(k, v)]
  | (k', v') :: d' =>
      if (k' =? k)%Z then (k, v) :: d' else (k', v') :: dict_set k v d'
  end.

(** [class SessionStats] *)
Record SessionStats : Type := mkSessionStats {
  phases : list (Z * PhaseStats);
  session_start : float;
  total_input_tokens : Z;
  total_output_tokens : Z
}.

(** [SessionStats()], the clock reading [now]. *)
Definition new_stats (now : float) : SessionStats :=
  {| phases := [];
     session_start := now;
     total_input_tokens := 0;
     total_output_tokens := 0 |}.

Definition get_phase (stats : SessionStats) (phase_num : Z) : option PhaseStats :=
  dict_get phase_num (phases stats).

(** [start_phase], the clock reading [now]. *)
Definition start_phase (stats : SessionStats) (phase_num : Z)
  (agent description : str) (now : float) : SessionStats :=
  {| phases :=
       dict_set phase_num
         {| phase_number := phase_num;
            agent := agent;
            description := description;
            start_time := Some now;
            end_time := None;
            input_tokens := 0;
            output_tokens := 0;
            completed := false |}
         (phases stats);
     session_start := session_start stats;
     total_input_tokens := total_input_tokens stats;
     total_output_tokens := total_output_tokens stats |}.

(** [end_phase], the clock reading [now]. *)
Definition end_phase (stats : SessionStats) (phase_num : Z)
  (input_tokens output_tokens : Z) (now : float) : SessionStats :=
  match dict_get phase_num (phases stats) with
  | Some ps =>
      {| phases :=
           dict_set phase_num
             {| phase_number := phase_number ps;
                agent := agent ps;
                description := description ps;
                start_time := start_time ps;
                end_time := Some now;
                input_tokens := input_tokens;
                output_tokens := output_tokens;
                completed := true |}
             (phases stats);
         session_start := session_start stats;
         total_input_tokens := (total_input_tokens stats + input_tokens)%Z;
         total_output_tokens := (total_output_tokens stats + output_tokens)%Z |}
  | None => stats
  end.

Definition get_phase_duration (stats : SessionStats) (phase_num : Z)
  : option float :=
  match dict_get phase_num (phases stats) with
  | Some ps =>
      match start_time ps, end_time ps with
      | Some s, Some e =>
          if (truthy s && truthy e)%bool then Some (PrimFloat.sub e s) else None
      | _, _ => None
      end
  | None => None
  end.

(** [get_total_duration], the clock reading [now]. *)
Definition get_total_duration (stats : SessionStats) (now : float) : float :=
  PrimFloat.sub now (session_start stats).

End Stats.

Module StatsSpec.
Import Py Stats.








End StatsSpec.


(* ================================================================== *)
(** * Lines of a session file *)
(* ================================================================== *)

Module ScanSpec.
Import Py.



(** No white space is followed by a digit inside the text. *)
Fixpoint no_space_digit (x : str) : bool :=
  match x with
  | a :: (b :: _) as x' =>
      (negb (is_space a && is_digit b) && no_space_digit x')%bool
  | _ => true
  end.

(** The text is empty or ends with white space. *)
Definition after_space (x : str) : Prop :=
  x = [] \/ exists x0 w, x = x0 ++ [w] /\ is_space w = true.

End ScanSpec.


(* ================================================================== *)
(** * [main.py]: initialisation *)
(* ================================================================== *)

Module Init.
Import Py Fs Audit.

(** [generate_minimal_agents_md] of [main.py] *)
Definition generate_minimal_agents_md (project_name : str) : str :=
  L "# " ++ project_name ++ L " Agent System

This document is the **single source of truth** for agent coordination.

---

## Agent Registry

| Agent | File | Purpose |
|-------|------|---------|
| (no agents defined yet) | - | - |

---

## Ownership Matrix

| Agent | OWNS (only they modify) | NEVER touches |
|-------|-------------------------|---------------|
| (add agents first) | - | - |

---

## Routing Table

| IF task involves... | SPAWN this agent |
|---------------------|------------------|
| (add routing rules) | - |

---

## Adding Agents

Create agent files in `.claude/agents/` with this format:

```markdown
---
name: agent-name
description: What this agent does
---

You are the [Name] Agent...

## Files I OWN:
- path/to/files/

## Files I NEVER touch:
- other/paths/
```

Then run `init` again to regenerate this AGENTS.md.
".




End Init.


(* ================================================================== *)
(** * [main.py]: the loop of [run_orchestration] *)
(* ================================================================== *)

Module Loop.
Import Py Session Orchestrator Stats.








End Loop.

Module LoopSpec.
Import Py Session Orchestrator Stats Loop.








End LoopSpec.

Module LoopExamples.
Import Py Session Loop Examples.




End LoopExamples.


(* ================================================================== *)
(** * Sessions as they are decoded *)
(* ================================================================== *)

Module DecodedSpec.
Import Py Session.


End DecodedSpec.

(* ================================================================== *)
(** * Properties *)
(* ================================================================== *)


Module PyFacts.
Import Py.

Lemma str_eqb_eq (x y : str) : str_eqb x y = true <-> x = y.
Proof.
  revert y; induction x as [|a x IH]; intros [|b y]; simpl; split;
    try congruence; try reflexivity.
  - rewrite andb_true_iff, Ascii.eqb_eq, IH. intros [-> ->]; reflexivity.
  - intros H; injection H as -> ->.
    rewrite Ascii.eqb_refl. simpl. apply IH. reflexivity.
Qed.

Lemma str_eqb_refl (x : str) : str_eqb x x = true.
Proof. apply str_eqb_eq; reflexivity. Qed.

Lemma str_eqb_neq (x y : str) : str_eqb x y = false <-> x <> y.
Proof.
  rewrite <- str_eqb_eq. destruct (str_eqb x y); split; congruence.
Qed.

Lemma startswith_app (p s : str) : startswith p (p ++ s) = true.
Proof.
  induction p as [|a p IH]; simpl; [reflexivity|].
  rewrite Ascii.eqb_refl; exact IH.
Qed.

Lemma startswith_inv (p s : str) :
  startswith p s = true -> exists t, s = p ++ t.
Proof.
  revert s; induction p as [|a p IH]; intros s H.
  - exists s; reflexivity.
  - destruct s as [|b s]; simpl in H; [discriminate|].
    apply andb_true_iff in H as [Hab H]. apply Ascii.eqb_eq in Hab as ->.
    destruct (IH _ H) as [t ->]. exists t; reflexivity.
Qed.


Lemma contains_inv (p s : str) :
  contains p s = true -> exists pre post, s = pre ++ p ++ post.
Proof.
  induction s as [|a s IH]; simpl; intros H.
  - rewrite orb_false_r in H. apply startswith_inv in H as [t ->].
    exists [], t; reflexivity.
  - apply orb_true_iff in H as [H|H].
    + apply startswith_inv in H as [t ->]. exists [], t; reflexivity.
    + destruct (IH H) as (pre & post & ->). exists (a :: pre), post; reflexivity.
Qed.

(** ** White space at the ends *)

Lemma dropwhile_head (p : ascii -> bool) (a : ascii) (s : str) :
  p a = false -> dropwhile p (a :: s) = a :: s.
Proof. intros H; simpl; rewrite H; reflexivity. Qed.


Lemma lstrip_head (a : ascii) (s : str) :
  is_space a = false -> lstrip (a :: s) = a :: s.
Proof. apply dropwhile_head. Qed.

Lemma rstrip_last (s : str) (a : ascii) :
  is_space a = false -> rstrip (s ++ [a]) = s ++ [a].
Proof.
  intros H. unfold rstrip. rewrite rev_app_distr. simpl. rewrite H.
  simpl. rewrite rev_involutive. reflexivity.
Qed.

Lemma rstrip_space (s : str) (a : ascii) :
  is_space a = true -> rstrip (s ++ [a]) = rstrip s.
Proof.
  intros H. unfold rstrip. rewrite rev_app_distr. simpl. rewrite H.
  reflexivity.
Qed.

Lemma strip_ends (a b : ascii) (s : str) :
  is_space a = false -> is_space b = false ->
  strip (a :: s ++ [b]) = a :: s ++ [b].
Proof.
  intros Ha Hb. unfold strip. rewrite lstrip_head by assumption.
  apply (rstrip_last (a :: s)); assumption.
Qed.

End PyFacts.


Module ReFacts.
Import Py Re ReSpec.

(** ** Soundness of the matcher: what it finds is a match *)

Lemma after_app (x y : str) (prev : option ascii) :
  after (x ++ y) prev = after y (after x prev).
Proof. unfold after. apply fold_left_app. Qed.

Lemma lit_k_sound (eqc : ascii -> ascii -> bool) (l : str) (k : cont) :
  forall prev s c res,
    lit_k eqc l k prev s c = Some res ->
    exists l' s',
      s = l' ++ s' /\ Forall2 (fun x a => eqc x a = true) l l' /\
      k (after l' prev) s' c = Some res.
Proof.
  induction l as [|x l IH]; intros prev s c res H; simpl in H.
  - exists [], s. repeat split; [constructor | exact H].
  - destruct s as [|a s]; [discriminate|].
    destruct (eqc x a) eqn:E; [|discriminate].
    destruct (IH _ _ _ _ H) as (l' & s' & -> & Hl & Hk).
    exists (a :: l'), s'. repeat split; [constructor; assumption | exact Hk].
Qed.

Lemma Forall2_eqb (l l' : str) :
  Forall2 (fun x a => Ascii.eqb x a = true) l l' -> l' = l.
Proof.
  induction 1 as [|x a l l' H _ IH]; [reflexivity|].
  apply Ascii.eqb_eq in H. congruence.
Qed.

Lemma star_loop_sound (body : cont -> cont) (r : regex) (k : cont) :
  (forall k' prev s c res,
      body k' prev s c = Some res ->
      exists p1 s1 c1, matches r prev s c p1 s1 c1 /\ k' p1 s1 c1 = Some res) ->
  forall fuel prev s c res,
    star_loop body k fuel prev s c = Some res ->
    exists p1 s1 c1,
      matches (Star r) prev s c p1 s1 c1 /\ k p1 s1 c1 = Some res.
Proof.
  intros Hbody. induction fuel as [|f IH]; intros prev s c res H; simpl in H.
  - exists prev, s, c. split; [constructor | exact H].
  - destruct (body _ prev s c) as [x|] eqn:E.
    + injection H as ->.
      apply Hbody in E as (p1 & s1 & c1 & Hm & Hk).
      destruct (Nat.ltb (length s1) (length s)); [|discriminate].
      apply IH in Hk as (p2 & s2 & c2 & Hm2 & Hk2).
      exists p2, s2, c2. split; [|exact Hk2].
      eapply M_star_round; eassumption.
    + exists prev, s, c. split; [constructor | exact H].
Qed.

Lemma lazy_loop_sound (body : cont -> cont) (r : regex) (k : cont) :
  (forall k' prev s c res,
      body k' prev s c = Some res ->
      exists p1 s1 c1, matches r prev s c p1 s1 c1 /\ k' p1 s1 c1 = Some res) ->
  forall fuel prev s c res,
    lazy_loop body k fuel prev s c = Some res ->
    exists p1 s1 c1,
      matches (Lazy r) prev s c p1 s1 c1 /\ k p1 s1 c1 = Some res.
Proof.
  intros Hbody. induction fuel as [|f IH]; intros prev s c res H; simpl in H.
  - destruct (k prev s c) eqn:E; [|discriminate].
    exists prev, s, c. split; [constructor | congruence].
  - destruct (k prev s c) eqn:E.
    + exists prev, s, c. split; [constructor | congruence].
    + apply Hbody in H as (p1 & s1 & c1 & Hm & Hk).
      destruct (Nat.ltb (length s1) (length s)); [|discriminate].
      apply IH in Hk as (p2 & s2 & c2 & Hm2 & Hk2).
      exists p2, s2, c2. split; [|exact Hk2].
      eapply M_lazy_round; eassumption.
Qed.

Theorem m_sound (r : regex) :
  forall k prev s c res,
    m r k prev s c = Some res ->
    exists p1 s1 c1, matches r prev s c p1 s1 c1 /\ k p1 s1 c1 = Some res.
Proof.
  induction r as [ | p | l | l | r1 IH1 r2 IH2 | r1 IH1 r2 IH2 | r IH | r IH
                 | n r IH | | | | | r IH ];
    intros k prev s c res H;
    first [ change (star_loop (m r) k (S (length s)) prev s c = Some res) in H
          | change (lazy_loop (m r) k (S (length s)) prev s c = Some res) in H
          | simpl in H ].
  - exists prev, s, c. split; [constructor | exact H].
  - destruct s as [|a s]; [discriminate|].
    destruct (p a) eqn:E; [|discriminate].
    exists (Some a), s, c. split; [constructor; exact E | exact H].
  - apply lit_k_sound in H as (l' & s' & -> & Hl & Hk).
    apply Forall2_eqb in Hl as ->.
    exists (after l prev), s', c. split; [constructor | exact Hk].
  - apply lit_k_sound in H as (l' & s' & -> & Hl & Hk).
    exists (after l' prev), s', c. split; [constructor; exact Hl | exact Hk].
  - apply IH1 in H as (p1 & s1 & c1 & Hm1 & H).
    apply IH2 in H as (p2 & s2 & c2 & Hm2 & H).
    exists p2, s2, c2. split; [econstructor; eassumption | exact H].
  - destruct (m r1 k prev s c) eqn:E.
    + injection H as ->.
      apply IH1 in E as (p1 & s1 & c1 & Hm1 & H).
      exists p1, s1, c1. split; [apply M_alt_l; exact Hm1 | exact H].
    + apply IH2 in H as (p1 & s1 & c1 & Hm1 & H).
      exists p1, s1, c1. split; [apply M_alt_r; exact Hm1 | exact H].
  - eapply star_loop_sound; [|exact H]. intros; apply IH; assumption.
  - eapply lazy_loop_sound; [|exact H]. intros; apply IH; assumption.
  - apply IH in H as (p1 & s1 & c1 & Hm1 & H).
    eexists p1, s1, _. split; [constructor; exact Hm1 | exact H].
  - destruct prev as [a|].
    + destruct (is_nl a) eqn:E; [|discriminate].
      exists (Some a), s, c. split; [constructor; exact E | exact H].
    + exists None, s, c. split; [constructor | exact H].
  - destruct prev as [a|]; [discriminate|].
    exists None, s, c. split; [constructor | exact H].
  - destruct s as [|a s].
    + exists prev, [], c. split; [constructor | exact H].
    + destruct (is_nl a) eqn:E; [|discriminate].
      exists prev, (a :: s), c. split; [constructor; exact E | exact H].
  - destruct s as [|a s]; [|discriminate].
    exists prev, [], c. split; [constructor | exact H].
  - destruct (m r done prev s c) as [[[p1 s1] c1]|] eqn:E; [|discriminate].
    apply IH in E as (p1' & s1' & c1' & Hm1 & E).
    injection E as -> -> ->.
    exists prev, s, c1. split; [econstructor; exact Hm1 | exact H].
Qed.

Lemma search_from_sound (r : regex) (s : str) :
  forall prev res,
    search_from r prev s = Some res ->
    exists pre prev' t, s = pre ++ t /\
      matches r prev' t [] (fst (fst res)) (snd (fst res)) (snd res).
Proof.
  induction s as [|a s IH]; intros prev res H; simpl in H.
  - destruct (m r done prev [] []) eqn:E; [|discriminate].
    injection H as ->. apply m_sound in E as (p1 & s1 & c1 & Hm & E).
    injection E as <-. exists [], prev, []. split; [reflexivity | exact Hm].
  - destruct (m r done prev (a :: s) []) eqn:E.
    + injection H as ->. apply m_sound in E as (p1 & s1 & c1 & Hm & E).
      injection E as <-. exists [], prev, (a :: s). split; [reflexivity | exact Hm].
    + apply IH in H as (pre & prev' & t & -> & Hm).
      exists (a :: pre), prev', t. split; [reflexivity | exact Hm].
Qed.

Lemma re_search_sound (r : regex) (s : str) (c : caps) :
  re_search r s = Some c ->
  exists pre prev t p1 s1, s = pre ++ t /\ matches r prev t [] p1 s1 c.
Proof.
  unfold re_search. destruct (search_from r None s) as [[[p1 s1] c1]|] eqn:E;
    [|discriminate].
  intros H; injection H as ->.
  apply search_from_sound in E as (pre & prev' & t & -> & Hm).
  exists pre, prev', t, p1, s1. split; [reflexivity | exact Hm].
Qed.

Lemma re_match_sound (r : regex) (s : str) (c : caps) :
  re_match r s = Some c ->
  exists p1 s1, matches r None s [] p1 s1 c.
Proof.
  unfold re_match. destruct (m r done None s []) as [[[p1 s1] c1]|] eqn:E;
    [|discriminate].
  intros H; injection H as ->.
  apply m_sound in E as (p1' & s1' & c1' & Hm & E). injection E as -> -> ->.
  exists p1, s1. exact Hm.
Qed.

(** ** What a match captures *)

Lemma matches_suffix r prev s c p1 s1 c1 :
  matches r prev s c p1 s1 c1 -> exists x, s = x ++ s1.
Proof.
  induction 1;
    try (exists []; reflexivity);
    try (eexists; reflexivity);
    try assumption.
  - exists [a]; reflexivity.
  - destruct IHmatches1 as [x ->], IHmatches2 as [y ->].
    exists (x ++ y). rewrite app_assoc. reflexivity.
  - destruct IHmatches1 as [x ->], IHmatches2 as [y ->].
    exists (x ++ y). rewrite app_assoc. reflexivity.
  - destruct IHmatches1 as [x ->], IHmatches2 as [y ->].
    exists (x ++ y). rewrite app_assoc. reflexivity.
Qed.

Lemma firstn_app_exact (x t : str) :
  firstn (length (x ++ t) - length t) (x ++ t) = x.
Proof.
  rewrite length_app, Nat.add_sub.
  rewrite firstn_app, Nat.sub_diag, firstn_all. simpl. apply app_nil_r.
Qed.

Lemma matches_star_cls (p : ascii -> bool) prev s c p1 s1 c1 :
  matches (Star (Cls p)) prev s c p1 s1 c1 ->
  exists x, s = x ++ s1 /\ forallb p x = true /\ c1 = c.
Proof.
  intros H. remember (Star (Cls p)) as r eqn:Er.
  induction H; try discriminate.
  - exists []. repeat split.
  - injection Er as ->. specialize (IHmatches2 eq_refl).
    destruct IHmatches2 as (x & -> & Hx & ->).
    inversion H; subst.
    exists (a :: x). repeat split. simpl.
    match goal with Hp : p a = true |- _ => rewrite Hp end. exact Hx.
Qed.

Lemma matches_plus_cls (p : ascii -> bool) prev s c p1 s1 c1 :
  matches (Plus (Cls p)) prev s c p1 s1 c1 ->
  exists x, s = x ++ s1 /\ x <> [] /\ forallb p x = true /\ c1 = c.
Proof.
  unfold Plus. intros H. inversion H; subst.
  match goal with
  | H1 : matches (Cls p) _ _ _ _ _ _, H2 : matches (Star _) _ _ _ _ _ _ |- _ =>
      inversion H1; subst; apply matches_star_cls in H2 as (x & -> & Hx & ->)
  end.
  exists (a :: x). repeat split; [discriminate|]. simpl.
  match goal with Hp : p a = true |- _ => rewrite Hp end. exact Hx.
Qed.

Lemma matches_group_plus_cls n (p : ascii -> bool) prev s c p1 s1 c1 :
  matches (Group n (Plus (Cls p))) prev s c p1 s1 c1 ->
  exists x, s = x ++ s1 /\ x <> [] /\ forallb p x = true /\ c1 = (n, x) :: c.
Proof.
  intros H. inversion H; subst.
  match goal with
  | H1 : matches (Plus _) _ _ _ _ _ _ |- _ =>
      apply matches_plus_cls in H1 as (x & -> & Hne & Hx & ->)
  end.
  exists x. rewrite firstn_app_exact. repeat split; assumption.
Qed.

End ReFacts.


Module CaptureFacts.
Import Py Re ReSpec PyFacts ReFacts.

Lemma matches_defines r prev s c p1 s1 c1 :
  matches r prev s c p1 s1 c1 ->
  forall n, defines r n = true \/ group c n <> None -> group c1 n <> None.
Proof.
  induction 1; intros k Hk; simpl in Hk;
    try (destruct Hk as [Hk|Hk]; [discriminate | exact Hk]).
  - apply IHmatches2. destruct Hk as [Hk|Hk].
    + apply orb_true_iff in Hk as [Hk|Hk]; [right | left; exact Hk].
      apply IHmatches1. left; exact Hk.
    + right. apply IHmatches1. right; exact Hk.
  - apply IHmatches. destruct Hk as [Hk|Hk]; [left | right; exact Hk].
    apply andb_true_iff in Hk as [Hk _]; exact Hk.
  - apply IHmatches. destruct Hk as [Hk|Hk]; [left | right; exact Hk].
    apply andb_true_iff in Hk as [_ Hk]; exact Hk.
  - apply IHmatches2. right. apply IHmatches1. right.
    destruct Hk as [Hk|Hk]; [discriminate | exact Hk].
  - apply IHmatches2. right. apply IHmatches1. right.
    destruct Hk as [Hk|Hk]; [discriminate | exact Hk].
  - simpl. destruct (Nat.eqb n k) eqn:E; [discriminate|].
    apply IHmatches. destruct Hk as [Hk|Hk]; [left | right; exact Hk].
    exact Hk.
  - apply IHmatches. exact Hk.
Qed.

Lemma re_search_defines r s c n :
  re_search r s = Some c -> defines r n = true -> exists x, group c n = Some x.
Proof.
  intros H Hd. apply re_search_sound in H as (pre & prev & t & p1 & s1 & _ & Hm).
  pose proof (matches_defines _ _ _ _ _ _ _ Hm n (or_introl Hd)) as Hg.
  destruct (group c n) as [x|]; [exists x; reflexivity | congruence].
Qed.

Lemma re_match_defines r s c n :
  re_match r s = Some c -> defines r n = true -> exists x, group c n = Some x.
Proof.
  intros H Hd. apply re_match_sound in H as (p1 & s1 & Hm).
  pose proof (matches_defines _ _ _ _ _ _ _ Hm n (or_introl Hd)) as Hg.
  destruct (group c n) as [x|]; [exists x; reflexivity | congruence].
Qed.

End CaptureFacts.

Module IntFacts.
Import Py PyFacts.

Lemma is_digit_not_space a : is_digit a = true -> is_space a = false.
Proof.
  unfold is_digit, is_space, between. intros H.
  apply andb_true_iff in H as [H1 H2].
  apply N.leb_le in H1, H2.
  apply orb_false_iff; split; apply andb_false_iff.
  - right. apply N.leb_gt. lia.
  - right. apply N.leb_gt. lia.
Qed.

Lemma is_digit_not_sign a :
  is_digit a = true -> Ascii.eqb a "+" = false /\ Ascii.eqb a "-" = false.
Proof.
  intros H. split; apply Ascii.eqb_neq; intros ->; discriminate H.
Qed.

Lemma int_digits_some (x : str) :
  forall b acc,
    forallb is_digit x = true -> x <> [] \/ b = true ->
    exists n, int_digits b acc x = Some n.
Proof.
  induction x as [|a x IH]; intros b acc Hx Hb; simpl.
  - destruct Hb as [Hb| ->]; [congruence | eauto].
  - simpl in Hx. apply andb_true_iff in Hx as [Ha Hx]. rewrite Ha.
    apply IH; [exact Hx | right; reflexivity].
Qed.

Lemma strip_digits (x : str) : forallb is_digit x = true -> strip x = x.
Proof.
  intros Hx. destruct x as [|a x]; [reflexivity|].
  destruct (exists_last (l := a :: x)) as (y & b & E); [discriminate|].
  assert (Hb : is_space b = false).
  { apply is_digit_not_space. rewrite E in Hx. rewrite forallb_app in Hx.
    apply andb_true_iff in Hx as [_ Hx]. simpl in Hx.
    rewrite andb_true_r in Hx. exact Hx. }
  simpl in Hx. apply andb_true_iff in Hx as [Ha _].
  unfold strip. rewrite lstrip_head by (apply is_digit_not_space; exact Ha).
  rewrite E. apply rstrip_last. exact Hb.
Qed.

Lemma int_of_digits (x : str) :
  forallb is_digit x = true -> x <> [] ->
  int x = int_digits false 0%Z x /\ exists n, int x = Some n.
Proof.
  intros Hx Hne. unfold int. rewrite strip_digits by exact Hx.
  destruct x as [|a x]; [congruence|].
  pose proof Hx as Hx'. simpl in Hx'. apply andb_true_iff in Hx' as [Ha _].
  destruct (is_digit_not_sign _ Ha) as [-> ->].
  split; [reflexivity|]. apply int_digits_some; [exact Hx | left; exact Hne].
Qed.

End IntFacts.


Module SessionTotal.
Import Py Re ReSpec PyFacts ReFacts CaptureFacts IntFacts Session.

Ltac inv_matches :=
  repeat match goal with
  | H : matches (Group _ (Plus (Cls _))) _ _ _ _ _ _ |- _ =>
      apply matches_group_plus_cls in H as (? & ? & ? & ? & ->); try subst
  | H : matches (Seq _ _) _ _ _ _ _ _ |- _ => inversion H; subst; clear H
  | H : matches (Lit _) _ _ _ _ _ _ |- _ => inversion H; subst; clear H
  | H : matches (Cls _) _ _ _ _ _ _ |- _ => inversion H; subst; clear H
  | H : matches (Group _ (Cls _)) _ _ _ _ _ _ |- _ => inversion H; subst; clear H
  end.

(** ** Decoding never raises *)











End SessionTotal.


Module SessionFacts.
Import Py Re PyFacts Session SessionSpec SessionTotal.

(** ** Marking a phase *)

Lemma mark_first_none (ps : list Phase) (k : Z) :
  (forall p, In p ps -> number p <> k) -> mark_first ps k = None.
Proof.
  induction ps as [|p ps IH]; intros H; simpl; [reflexivity|].
  destruct (Z.eqb_spec (number p) k) as [E|_].
  - exfalso. apply (H p); [left; reflexivity | exact E].
  - rewrite IH; [reflexivity|]. intros q Hq. apply H. right; exact Hq.
Qed.

Lemma mark_first_some (pre : list Phase) (p : Phase) (post : list Phase) (k : Z) :
  number p = k -> (forall q, In q pre -> number q <> k) ->
  mark_first (pre ++ p :: post) k =
    Some (pre ++ with_flag_set p :: post, agent p).
Proof.
  intros <-. induction pre as [|q pre IH]; intros Hpre; simpl.
  - rewrite Z.eqb_refl. reflexivity.
  - destruct (Z.eqb_spec (number q) (number p)) as [E|_].
    + exfalso. apply (Hpre q); [left; reflexivity | exact E].
    + rewrite IH; [reflexivity|]. intros r Hr. apply Hpre. right; exact Hr.
Qed.


(** ** The first phase that is not complete *)

Lemma next_incomplete_first (ps : list Phase) :
  first_incomplete ps (next_incomplete ps).
Proof.
  unfold next_incomplete. induction ps as [|p ps IH]; simpl.
  - constructor.
  - destruct (complete p) eqn:E; simpl.
    + destruct (find _ ps) as [q|].
      * destruct IH as (pre & post & -> & Hpre & Hq).
        exists (p :: pre), post. repeat split; [constructor; assumption | exact Hq].
      * constructor; assumption.
    + exists [], ps. repeat split; [constructor | exact E].
Qed.

Lemma first_incomplete_unique (ps : list Phase) (r1 r2 : option Phase) :
  first_incomplete ps r1 -> first_incomplete ps r2 -> r1 = r2.
Proof.
  revert r1 r2. induction ps as [|p ps IH]; intros r1 r2 H1 H2.
  - destruct r1 as [q|].
    { destruct H1 as ([|? ?] & ? & E & _); discriminate E. }
    destruct r2 as [q|]; [|reflexivity].
    destruct H2 as ([|? ?] & ? & E & _); discriminate E.
  - assert (Hhead : forall r, first_incomplete (p :: ps) r ->
              (complete p = false /\ r = Some p) \/
              (complete p = true /\ first_incomplete ps r)).
    { intros [q|] H.
      - destruct H as ([|p' pre] & post & E & Hpre & Hq); injection E as <- ->.
        + left; split; [exact Hq | reflexivity].
        + right. inversion Hpre; subst. split; [assumption|].
          exists pre, post. repeat split; assumption.
      - right. inversion H; subst. split; assumption. }
    destruct (Hhead _ H1) as [[E1 ->]|[E1 H1']], (Hhead _ H2) as [[E2 ->]|[E2 H2']];
      try congruence.
    apply IH; assumption.
Qed.

Lemma sorted_tail (x y : list Z) :
  StronglySorted Z.lt (x ++ y) -> StronglySorted Z.lt y.
Proof.
  induction x as [|a x IH]; simpl; intros H; [exact H|].
  apply StronglySorted_inv in H as [H _]. auto.
Qed.


End SessionFacts.


Module SessionClaims.
Import Py Re PyFacts Session SessionSpec SessionTotal SessionFacts Examples.

(** C3.  [MarkComplete(session, k, notes)] fails with [PhaseNotFound]
    when no phase has number [k].  When some phase has number [k], the
    first such phase gets its flag set; if a phase without flag remains,
    the phase counter and the current agent become those of the first
    such phase and the state becomes pending, otherwise the state becomes
    complete and the current agent "none"; non-empty notes are added to
    the work log as an entry naming the agent of the marked phase, an
    empty log or one that is only the placeholder being replaced by the
    entry instead of extended. *)
Theorem mark_complete_spec (s : Session) (k : Z) (notes : str) :
  ((forall p, In p (phases s) -> number p <> k) ->
   mark_complete s k notes = inl (PhaseNotFound k))
  /\
  (forall pre p post,
     phases s = pre ++ p :: post ->
     number p = k ->
     (forall q, In q pre -> number q <> k) ->
     exists s',
       mark_complete s k notes = inr s' /\
       phases s' = pre ++ with_flag_set p :: post /\
       (forall nxt, first_incomplete (phases s') (Some nxt) ->
          phase s' = number nxt /\ current_agent s' = agent nxt /\
          state s' = L "pending") /\
       (all_complete (phases s') ->
          state s' = L "complete" /\ current_agent s' = L "none" /\
          phase s' = phase s) /\
       (notes = [] -> work_log s' = work_log s) /\
       (notes <> [] -> work_log s = [] \/ work_log s = placeholder ->
          work_log s' =
            L "### Phase " ++ str_of_int k ++ L " (" ++ agent p ++ L ")" ++
            [nl] ++ notes) /\
       (notes <> [] -> work_log s <> [] -> work_log s <> placeholder ->
          work_log s' =
            work_log s ++ [nl; nl] ++
            L "### Phase " ++ str_of_int k ++ L " (" ++ agent p ++ L ")" ++
            [nl] ++ notes) /\
       name s' = name s /\ total_phases s' = total_phases s /\
       user_request s' = user_request s).
Proof.
  split.
  - intros H. unfold mark_complete. rewrite mark_first_none by exact H.
    reflexivity.
  - intros pre p post Hps Hp Hpre. unfold mark_complete.
    rewrite Hps, mark_first_some by assumption.
    eexists; split; [reflexivity|]. cbn [phases name total_phases user_request
      phase current_agent state work_log].
    pose proof (next_incomplete_first (pre ++ with_flag_set p :: post)) as Hn.
    split; [reflexivity|].
    split; [|split; [|split; [|split; [|split; [|repeat split]]]]].
    + intros nxt Hnxt.
      rewrite (first_incomplete_unique _ _ _ Hn Hnxt). repeat split.
    + intros Hall.
      rewrite (first_incomplete_unique _ _ None Hn Hall). repeat split.
    + intros ->. reflexivity.
    + intros Hnotes Hlog. unfold add_notes.
      destruct notes as [|c notes]; [congruence|].
      destruct Hlog as [-> | ->]; reflexivity.
    + intros Hnotes Hne Hph. unfold add_notes.
      destruct notes as [|c notes]; [congruence|].
      apply str_eqb_neq in Hne, Hph. rewrite Hne, Hph. reflexivity.
Qed.

Lemma mark_complete_spec_witness :
  mark_complete scenario 9 (L "done") = inl (PhaseNotFound 9) /\
  exists s',
    mark_complete scenario 2 (L "done") = inr s' /\
    phases s' = [ mkPhase 1 true (L "a") (L "x");
                  mkPhase 2 true (L "b") (L "y");
                  mkPhase 3 false (L "c") (L "z") ] /\
    phase s' = 3%Z /\ current_agent s' = L "c" /\ state s' = L "pending" /\
    work_log s' = L "### Phase 2 (b)
done".
Proof.
  split.
  - apply (proj1 (mark_complete_spec scenario 9 (L "done"))).
    intros p [<-|[<-|[<-|[]]]]; discriminate.
  - destruct (proj2 (mark_complete_spec scenario 2 (L "done"))
                [mkPhase 1 true (L "a") (L "x")]
                (mkPhase 2 false (L "b") (L "y"))
                [mkPhase 3 false (L "c") (L "z")]
                eq_refl eq_refl)
      as (s' & Hs' & Hps & Hnext & _ & _ & Hlog & _).
    { intros q [<-|[]]; discriminate. }
    exists s'. split; [exact Hs'|]. split; [exact Hps|].
    destruct (Hnext (mkPhase 3 false (L "c") (L "z"))) as (H1 & H2 & H3).
    { rewrite Hps.
      exists [mkPhase 1 true (L "a") (L "x"); mkPhase 2 true (L "b") (L "y")], [].
      repeat split. repeat constructor. }
    repeat split; try assumption.
    apply Hlog; [discriminate | right; reflexivity].
Defined.






End SessionClaims.


Module Divergences.
Import Py Re Session SessionSpec Examples SessionClaims.

Example parse_scenario : parse_session scenario_doc = Some scenario.
Proof. vm_compute. reflexivity. Qed.


(** Why the round trip asks for a request that is not empty: with an
    empty request the section of the request runs on to the next heading
    but one, and the heading of the phases is read back as the request. *)
Lemma round_trip_needs_request :
  fits no_request_session = false /\
  option_map user_request (parse_session (format_session no_request_session))
    = Some (L "## Phases" ++ [nl] ++ L "1. [ ] a - x").
Proof. split; vm_compute; reflexivity. Qed.

(** The session decoded from the empty document: every field has its
    zero value. *)
Example parse_empty_document :
  parse_session [] =
    Some {| name := []; phase := 0; total_phases := 0;
            current_agent := []; state := L "unknown";
            user_request := []; phases := []; work_log := [] |}.
Proof. vm_compute. reflexivity. Qed.

(** C2: the two completion tests on the same documents.  On a session
    without phases that is pending, [session_is_complete] reports
    completion and [is_session_complete] of [main.py] does not; on a
    session whose state reads complete with a phase not checked, it is the
    other way round. *)
Theorem completion_tests_disagree :
  (exists s, parse_session no_phases_doc = Some s /\
             phases s = [] /\ state s = L "pending") /\
  session_is_complete (Some no_phases_doc) =
    Some (Some {| is_complete := true; completed_count := 0;
                  total_count := 0; remaining := [] |}) /\
  Orchestrator.is_session_complete (Some no_phases_doc) = false /\
  (exists s, parse_session complete_unchecked_doc = Some s /\
             phases s = [mkPhase 1 false (L "a") (L "x")] /\
             state s = L "complete") /\
  session_is_complete (Some complete_unchecked_doc) =
    Some (Some {| is_complete := false; completed_count := 0;
                  total_count := 1; remaining := [L "1. a - x"] |}) /\
  Orchestrator.is_session_complete (Some complete_unchecked_doc) = true.
Proof.
  repeat split; try (vm_compute; reflexivity);
    eexists; (split; [vm_compute; reflexivity | split; reflexivity]).
Qed.

(** C8: the two decoders of the phase list on the same document.  A line
    of another shape between two phase lines ends the list for
    [parse_session], which drops the phase after it; [parse_phases] of
    [main.py] skips the line and keeps both phases. *)
Theorem phase_list_decoders_disagree :
  option_map phases (parse_session noted_doc) =
    Some [mkPhase 1 false (L "a") (L "x")] /\
  Orchestrator.parse_phases noted_doc =
    Some [mkPhase 1 false (L "a") (L "x"); mkPhase 2 false (L "b") (L "y")] /\
  session_mark_phase_complete (Some noted_doc) 2 [] =
    Some (Some noted_doc, MarkFailed (PhaseNotFound 2)).
Proof. repeat split; vm_compute; reflexivity. Qed.

(** C7: the audit with repair of a project whose registry has none of
    the required sections.  The registry is written anew and the project
    is reported ready, and the three issues of the validation are still
    in the list of issues; the issue of a registry that is missing, on
    the other hand, is cleared. *)
Theorem audit_keeps_section_issues :
  (exists r p',
     Audit.audit_project invalid_registry_project true = Some (r, p') /\
     Audit.issues r = [ L "Missing section: Agent Registry";
                        L "Missing section: Ownership Matrix";
                        L "Missing section: Routing Table" ] /\
     Audit.actions_taken r = [L "Created minimal AGENTS.md template"] /\
     Audit.agents_md_valid r = true /\
     Audit.is_ready r = true /\
     Audit.agents_dir p' =
       Some [ (L "AGENTS.md", Audit.generate_minimal_agents_md (L "shop")) ])
  /\
  (exists r p',
     Audit.audit_project missing_registry_project false = Some (r, p') /\
     Audit.issues r = [L "AGENTS.md not found"])
  /\
  (exists r p',
     Audit.audit_project missing_registry_project true = Some (r, p') /\
     Audit.issues r = [] /\
     Audit.is_ready r = true).
Proof.
  split; [|split].
  - eexists; eexists. split; [vm_compute; reflexivity|]. repeat split.
  - eexists; eexists. split; [vm_compute; reflexivity|]. reflexivity.
  - eexists; eexists. split; [vm_compute; reflexivity|]. repeat split.
Qed.

End Divergences.


Module AuditFacts.
Import Py Re ReSpec PyFacts ReFacts Fs Audit.

(** ** Searching for a literal *)

Lemma lit_k_complete (eqc : ascii -> ascii -> bool) (l mid : str) (k : cont) :
  Forall2 (fun x a => eqc x a = true) l mid ->
  forall prev post c,
    lit_k eqc l k prev (mid ++ post) c = k (after mid prev) post c.
Proof.
  induction 1 as [|x a l mid Hxa _ IH]; intros prev post c; simpl.
  - reflexivity.
  - rewrite Hxa. apply IH.
Qed.

Lemma search_from_here (r : regex) (prev : option ascii) (t : str) :
  m r done prev t [] <> None -> search_from r prev t <> None.
Proof.
  intros H. destruct t as [|b t]; simpl;
    (destruct (m r done prev _ []); [discriminate | contradiction H; reflexivity]).
Qed.

Lemma search_from_found (r : regex) (t : str) :
  (forall prev, m r done prev t [] <> None) ->
  forall pre prev, search_from r prev (pre ++ t) <> None.
Proof.
  intros Ht. induction pre as [|a pre IH]; intros prev.
  - apply search_from_here, Ht.
  - simpl. destruct (m r done prev (a :: pre ++ t) []); [discriminate | apply IH].
Qed.

Lemma eqb_ci_refl (a : ascii) : eqb_ci a a = true.
Proof. apply Ascii.eqb_refl. Qed.

Lemma Forall2_eqb_ci_refl (l : str) :
  Forall2 (fun x a => eqb_ci x a = true) l l.
Proof. induction l; constructor; [apply eqb_ci_refl | assumption]. Qed.

Lemma mentions_app_r (l x y : str) : mentions l y -> mentions l (x ++ y).
Proof.
  intros (pre & mid & post & -> & H).
  exists (x ++ pre), mid, post. rewrite <- app_assoc. split; [reflexivity | exact H].
Qed.

Lemma mentions_app_l (l x y : str) : mentions l x -> mentions l (x ++ y).
Proof.
  intros (pre & mid & post & -> & H).
  exists pre, mid, (post ++ y). rewrite <- !app_assoc. split; [reflexivity | exact H].
Qed.

Lemma mentions_contains (l s : str) : contains l s = true -> mentions l s.
Proof.
  intros H. apply contains_inv in H as (pre & post & ->).
  exists pre, l, post. split; [reflexivity | apply Forall2_eqb_ci_refl].
Qed.

Lemma search_liti (l s : str) :
  re_search (LitI l) s <> None <-> mentions l s.
Proof.
  unfold re_search. split.
  - intros H. destruct (search_from (LitI l) None s) as [res|] eqn:E;
      [|contradiction H; reflexivity].
    apply search_from_sound in E as (pre & prev & t & -> & Hm).
    inversion Hm; subst. exists pre, l', (snd (fst res)).
    split; [reflexivity | assumption].
  - intros (pre & mid & post & -> & Hl) H.
    apply (search_from_found (LitI l) (mid ++ post)) with (pre := pre) (prev := None).
    + intros prev. simpl. rewrite lit_k_complete by exact Hl. discriminate.
    + destruct (search_from _ _ _); [discriminate | reflexivity].
Qed.

Lemma search_alt_liti (l1 l2 s : str) :
  re_search (Alt (LitI l1) (LitI l2)) s <> None <->
  mentions l1 s \/ mentions l2 s.
Proof.
  unfold re_search. split.
  - intros H.
    destruct (search_from (Alt (LitI l1) (LitI l2)) None s) as [res|] eqn:E;
      [|contradiction H; reflexivity].
    apply search_from_sound in E as (pre & prev & t & -> & Hm).
    inversion Hm; subst;
      match goal with
      | Hl : matches (LitI _) _ _ _ _ _ _ |- _ => inversion Hl; subst
      end; [left | right];
      exists pre, l', (snd (fst res)); (split; [reflexivity | assumption]).
  - intros Hm H.
    assert (Hgen : forall l, mentions l s ->
              (forall k prev t c, lit_k eqb_ci l k prev t c <> None ->
                  m (Alt (LitI l1) (LitI l2)) k prev t c <> None) ->
              search_from (Alt (LitI l1) (LitI l2)) None s <> None).
    { intros l (pre & mid & post & -> & Hl) Himp.
      apply search_from_found. intros prev. apply Himp.
      rewrite lit_k_complete by exact Hl. discriminate. }
    assert (Hs : search_from (Alt (LitI l1) (LitI l2)) None s <> None).
    { destruct Hm as [Hm|Hm]; (eapply Hgen; [exact Hm|]).
      - intros k prev t c Hk. simpl.
        destruct (lit_k eqb_ci l1 k prev t c); [discriminate | contradiction].
      - intros k prev t c Hk. simpl.
        destruct (lit_k eqb_ci l1 k prev t c); [discriminate | exact Hk]. }
    destruct (search_from _ None s); [discriminate | contradiction].
Qed.

End AuditFacts.


Module AuditClaims.
Import Py Re ReSpec PyFacts ReFacts Fs Audit AuditSpec AuditFacts Examples.

Lemma search_none_iff (r : regex) (s : str) (P : Prop) :
  (re_search r s <> None <-> P) -> (re_search r s = None <-> ~ P).
Proof.
  intros H. destruct (re_search r s) as [c|].
  - split; [discriminate|]. intros HP. contradiction HP. apply H. discriminate.
  - split; [|reflexivity]. intros _ HP. apply H in HP. contradiction HP.
    reflexivity.
Qed.





Lemma validate_all_present (content : str) :
  registry_present content ->
  mentions (L "Ownership Matrix") content ->
  mentions (L "Routing Table") content ->
  validate_agents_md content = (true, []).
Proof.
  intros P1 P2 P3.
  apply (search_alt_liti (L "Agent Registry") (L "## Agents")) in P1.
  apply search_liti in P2, P3.
  unfold validate_agents_md, required_sections, missing_sections.
  destruct (re_search (Alt _ _) content); [|contradiction P1; reflexivity].
  destruct (re_search (LitI (L "Ownership Matrix")) content);
    [|contradiction P2; reflexivity].
  destruct (re_search (LitI (L "Routing Table")) content);
    [|contradiction P3; reflexivity].
  reflexivity.
Qed.

Ltac find_mention :=
  first [ apply mentions_contains; vm_compute; reflexivity
        | apply mentions_app_l; apply mentions_contains; vm_compute; reflexivity
        | apply mentions_app_r; find_mention ].

(** C9.  The text that [Generate] produces passes [Validate], whatever
    the descriptors (none included) and the project name, and so does the
    text that [GenerateMinimal] produces. *)
Theorem generated_registry_validates :
  (forall (agents : list DiscoveredAgent) (project_name : str),
     validate_agents_md (generate_agents_md agents project_name) = (true, []))
  /\
  (forall project_name : str,
     validate_agents_md (generate_minimal_agents_md project_name) = (true, [])).
Proof.
  split.
  - intros agents pn. apply validate_all_present;
      [left|..]; unfold generate_agents_md; find_mention.
  - intros pn. apply validate_all_present;
      [left|..]; unfold generate_minimal_agents_md; find_mention.
Qed.

End AuditClaims.


Module DecimalFacts.
Import Py PySpec PyFacts IntFacts.
Local Open Scope Z_scope.

(** ** Decimal notation *)

Lemma digit_char_spec (d : Z) :
  0 <= d < 10 -> is_digit (digit_char d) = true /\ digit_val (digit_char d) = d.
Proof.
  intros H.
  assert (E : d = 0 \/ d = 1 \/ d = 2 \/ d = 3 \/ d = 4 \/
              d = 5 \/ d = 6 \/ d = 7 \/ d = 8 \/ d = 9) by lia.
  repeat (destruct E as [-> | E]; [split; reflexivity|]).
  subst d; split; reflexivity.
Qed.

Lemma digit_char_is_digit (d : Z) : 0 <= d < 10 -> is_digit (digit_char d) = true.
Proof. intros H. apply digit_char_spec, H. Qed.

Lemma digit_val_char (d : Z) : 0 <= d < 10 -> digit_val (digit_char d) = d.
Proof. intros H. apply digit_char_spec, H. Qed.

Lemma digits_of_digits (fuel : nat) :
  forall n, 0 <= n -> forallb is_digit (digits_of (S fuel) n) = true.
Proof.
  induction fuel as [|f IH]; intros n Hn.
  - simpl. destruct (Z.ltb_spec n 10) as [H|H].
    + simpl. rewrite digit_char_is_digit by lia. reflexivity.
    + simpl. rewrite digit_char_is_digit; [reflexivity|].
      apply Z.mod_pos_bound. lia.
  - change (digits_of (S (S f)) n)
      with (if n <? 10 then [digit_char n]
            else digits_of (S f) (n / 10) ++ [digit_char (n mod 10)]).
    destruct (Z.ltb_spec n 10) as [H|H].
    + simpl. rewrite digit_char_is_digit by lia. reflexivity.
    + rewrite forallb_app, IH by (apply Z.div_pos; lia). simpl.
      rewrite digit_char_is_digit; [reflexivity|].
      apply Z.mod_pos_bound. lia.
Qed.

Lemma digits_of_nonempty (fuel : nat) (n : Z) : digits_of (S fuel) n <> [].
Proof.
  simpl. destruct (n <? 10); [discriminate|].
  intros H. apply app_eq_nil in H as [_ H]. discriminate.
Qed.

Lemma int_digits_value (x : str) :
  forall b acc,
    forallb is_digit x = true -> x <> [] \/ b = true ->
    int_digits b acc x = Some (digits_value acc x).
Proof.
  induction x as [|a x IH]; intros b acc Hx Hb; simpl.
  - destruct Hb as [Hb| ->]; [congruence | reflexivity].
  - simpl in Hx. apply andb_true_iff in Hx as [Ha Hx]. rewrite Ha.
    apply IH; [exact Hx | right; reflexivity].
Qed.

Lemma digits_value_snoc (acc : Z) (x : str) (a : ascii) :
  digits_value acc (x ++ [a]) = 10 * digits_value acc x + digit_val a.
Proof. unfold digits_value. rewrite fold_left_app. reflexivity. Qed.

Lemma digits_value_one (a : ascii) : digits_value 0 [a] = digit_val a.
Proof. unfold digits_value. simpl. lia. Qed.

Lemma digits_of_value (fuel : nat) :
  forall n, 0 <= n < 2 ^ Z.of_nat fuel ->
            digits_value 0 (digits_of (S fuel) n) = n.
Proof.
  induction fuel as [|f IH]; intros n Hn.
  - simpl in Hn. assert (n = 0) as -> by lia. reflexivity.
  - change (digits_of (S (S f)) n)
      with (if n <? 10 then [digit_char n]
            else digits_of (S f) (n / 10) ++ [digit_char (n mod 10)]).
    destruct (Z.ltb_spec n 10) as [H|H].
    + rewrite digits_value_one, digit_val_char by lia. reflexivity.
    + rewrite digits_value_snoc, IH.
      * rewrite digit_val_char by (apply Z.mod_pos_bound; lia).
        pose proof (Z.div_mod n 10). lia.
      * rewrite Nat2Z.inj_succ, Z.pow_succ_r in Hn by lia.
        split; [apply Z.div_pos; lia|].
        apply Z.div_lt_upper_bound; lia.
Qed.

Lemma str_of_int_nonneg (n : Z) :
  0 <= n ->
  str_of_int n = digits_of (S (Z.to_nat (Z.log2 n))) n.
Proof.
  intros H. unfold str_of_int.
  destruct (Z.ltb_spec n 0); [lia | reflexivity].
Qed.

Lemma str_of_int_digits (n : Z) :
  0 <= n -> forallb is_digit (str_of_int n) = true /\ str_of_int n <> [].
Proof.
  intros H. rewrite str_of_int_nonneg by exact H.
  split; [apply digits_of_digits; exact H | apply digits_of_nonempty].
Qed.

Lemma str_of_int_value (n : Z) :
  0 <= n -> digits_value 0 (str_of_int n) = n.
Proof.
  intros H. rewrite str_of_int_nonneg by exact H.
  destruct (Z.eq_dec n 0) as [->|Hn0]; [reflexivity|].
  assert (Hlog : 0 <= Z.log2 n) by apply Z.log2_nonneg.
  pose proof (Z.log2_spec n ltac:(lia)) as [_ Hup].
  remember (Z.to_nat (Z.log2 n)) as f eqn:Ef.
  assert (Hf : Z.of_nat (S f) = Z.succ (Z.log2 n)) by lia.
  destruct f as [|f'].
  - assert (Z.log2 n = 0) as E0 by lia. rewrite E0 in Hup.
    change (2 ^ Z.succ 0) with 2 in Hup.
    assert (n = 1) as -> by lia. reflexivity.
  - change (digits_of (S (S f')) n)
      with (if n <? 10 then [digit_char n]
            else digits_of (S f') (n / 10) ++ [digit_char (n mod 10)]).
    destruct (Z.ltb_spec n 10) as [H10|H10].
    + rewrite digits_value_one, digit_val_char by lia. reflexivity.
    + rewrite digits_value_snoc, digits_of_value.
      * rewrite digit_val_char by (apply Z.mod_pos_bound; lia).
        pose proof (Z.div_mod n 10). lia.
      * split; [apply Z.div_pos; lia|].
        apply Z.div_lt_upper_bound; [lia|].
        assert (Hp : 2 ^ Z.succ (Z.log2 n) = 4 * 2 ^ Z.of_nat f').
        { replace (Z.succ (Z.log2 n)) with (Z.of_nat f' + 2) by lia.
          rewrite Z.pow_add_r by lia. lia. }
        assert (0 < 2 ^ Z.of_nat f') by (apply Z.pow_pos_nonneg; lia).
        lia.
Qed.

Theorem int_str_of_int (n : Z) : 0 <= n -> int (str_of_int n) = Some n.
Proof.
  intros H. destruct (str_of_int_digits n H) as [Hd Hne].
  rewrite (proj1 (int_of_digits _ Hd Hne)).
  rewrite int_digits_value by (auto).
  rewrite str_of_int_value by exact H. reflexivity.
Qed.

Lemma str_of_int_inj (n k : Z) :
  0 <= n -> 0 <= k -> str_of_int n = str_of_int k -> n = k.
Proof.
  intros Hn Hk E. apply (f_equal int) in E.
  rewrite !int_str_of_int in E by assumption. congruence.
Qed.

End DecimalFacts.


Module ArchiveFacts.
Import Py PyFacts IntFacts DecimalFacts Fs Orchestrator Examples.

(** ** Files of a directory *)

Lemma lookup_remove (n n' : str) (d : dir) :
  lookup n (remove n' d) = if str_eqb n' n then None else lookup n d.
Proof.
  induction d as [|[x c] d IH]; simpl.
  - destruct (str_eqb n' n); reflexivity.
  - destruct (str_eqb x n') eqn:E1; simpl.
    + apply str_eqb_eq in E1 as ->. rewrite IH.
      destruct (str_eqb n' n); reflexivity.
    + rewrite IH. destruct (str_eqb x n) eqn:E2; [|reflexivity].
      apply str_eqb_eq in E2 as ->.
      destruct (str_eqb n' n) eqn:E3; [|reflexivity].
      apply str_eqb_eq in E3 as ->. rewrite str_eqb_refl in E1. discriminate.
Qed.

Lemma lookup_in_names (n : str) (d : dir) (c : str) :
  lookup n d = Some c -> In n (names d).
Proof.
  induction d as [|[x c'] d IH]; simpl; [discriminate|].
  destruct (str_eqb x n) eqn:E.
  - apply str_eqb_eq in E. left; exact E.
  - intros H. right. apply IH, H.
Qed.

(** ** Names of archives *)

Lemma split_no_sep (c : ascii) (x : str) :
  forallb (fun a => negb (Ascii.eqb a c)) x = true -> split c x = [x].
Proof.
  induction x as [|a x IH]; simpl; [reflexivity|].
  intros H. apply andb_true_iff in H as [Ha Hx].
  apply negb_true_iff in Ha. rewrite Ha, IH by exact Hx. reflexivity.
Qed.

Lemma digits_no_dash (x : str) :
  forallb is_digit x = true ->
  forallb (fun a => negb (Ascii.eqb a "-")) x = true.
Proof.
  intros H. rewrite forallb_forall in *. intros a Ha. specialize (H a Ha).
  apply negb_true_iff, Ascii.eqb_neq. intros ->. discriminate H.
Qed.

Lemma stem_md (x : str) : x <> [] -> stem (x ++ L ".md") = x.
Proof.
  intros Hx. unfold stem. rewrite rev_app_distr. simpl.
  rewrite length_app. simpl.
  replace (length x + 3 - 1 - 2)%nat with (length x) by lia.
  destruct x as [|a x]; [congruence|]. simpl.
  rewrite firstn_app, Nat.sub_diag, firstn_all. simpl. rewrite app_nil_r.
  reflexivity.
Qed.

Lemma archive_number_name (n : Z) :
  (0 <= n)%Z -> archive_number (archive_name n) = Some n.
Proof.
  intros Hn. unfold archive_number, archive_name.
  destruct (str_of_int_digits n Hn) as [Hd Hne].
  rewrite app_assoc, stem_md by discriminate.
  change (L "session-" ++ str_of_int n)
    with ("s" :: "e" :: "s" :: "s" :: "i" :: "o" :: "n" :: "-" :: str_of_int n)%char.
  simpl. rewrite split_no_sep by (apply digits_no_dash; exact Hd).
  simpl. apply int_str_of_int, Hn.
Qed.

Lemma archive_name_glob (n : Z) :
  glob_match (L "session-") (L ".md") (archive_name n) = true.
Proof.
  unfold glob_match, archive_name. rewrite startswith_app. simpl.
  unfold endswith. rewrite rev_app_distr. reflexivity.
Qed.

Lemma archive_name_not_current (n : Z) :
  (0 <= n)%Z -> str_eqb (archive_name n) session_current = false.
Proof.
  intros Hn. destruct (str_of_int_digits n Hn) as [Hd Hne].
  unfold archive_name. destruct (str_of_int n) as [|a x]; [congruence|].
  simpl in Hd. apply andb_true_iff in Hd as [Ha _].
  simpl. destruct (Ascii.eqb_spec a "c") as [->|_]; [discriminate Ha|].
  reflexivity.
Qed.

Lemma archive_name_inj (n k : Z) :
  (0 <= n)%Z -> (0 <= k)%Z -> archive_name n = archive_name k -> n = k.
Proof.
  intros Hn Hk E. unfold archive_name in E.
  apply app_inv_head, app_inv_tail in E. apply str_of_int_inj; assumption.
Qed.

(** ** The highest number *)

Lemma max_archive_ge (l : list str) (acc : Z) : (acc <= max_archive l acc)%Z.
Proof.
  revert acc. induction l as [|f l IH]; intros acc; simpl; [lia|].
  destruct (str_eqb f session_current); [apply IH|].
  destruct (archive_number f) as [num|]; [|apply IH].
  specialize (IH (Z.max acc num)). lia.
Qed.

Lemma max_archive_bound (l : list str) (acc b : Z) :
  (acc <= b)%Z ->
  (forall f num, In f l -> str_eqb f session_current = false ->
                 archive_number f = Some num -> (num <= b)%Z) ->
  (max_archive l acc <= b)%Z.
Proof.
  revert acc. induction l as [|f l IH]; intros acc Hacc H; simpl; [exact Hacc|].
  destruct (str_eqb f session_current) eqn:E1.
  - apply IH; [exact Hacc|]. intros; eapply H; eauto. right; assumption.
  - destruct (archive_number f) as [num|] eqn:E2.
    + apply IH.
      * specialize (H f num (or_introl eq_refl) E1 E2). lia.
      * intros; eapply H; eauto. right; assumption.
    + apply IH; [exact Hacc|]. intros; eapply H; eauto. right; assumption.
Qed.

Lemma max_archive_reaches (l : list str) (acc num : Z) (f : str) :
  In f l -> str_eqb f session_current = false ->
  archive_number f = Some num -> (num <= max_archive l acc)%Z.
Proof.
  revert acc. induction l as [|g l IH]; intros acc Hin E1 E2; [contradiction|].
  simpl. destruct Hin as [->|Hin].
  - rewrite E1, E2. pose proof (max_archive_ge l (Z.max acc num)). lia.
  - destruct (str_eqb g session_current); [apply IH; assumption|].
    destruct (archive_number g); apply IH; assumption.
Qed.

Lemma fold_max_ge (ns : list Z) : (0 <= fold_right Z.max 0%Z ns)%Z.
Proof. induction ns as [|n ns IH]; simpl; lia. Qed.

Lemma fold_max_in (ns : list Z) (n : Z) :
  In n ns -> (n <= fold_right Z.max 0%Z ns)%Z.
Proof.
  induction ns as [|k ns IH]; simpl; [contradiction|].
  intros [->|H]; [lia|]. specialize (IH H). lia.
Qed.

Lemma fold_max_attained (ns : list Z) :
  fold_right Z.max 0%Z ns = 0%Z \/ In (fold_right Z.max 0%Z ns) ns.
Proof.
  induction ns as [|k ns IH]; simpl; [left; reflexivity|].
  destruct (Z.max_spec k (fold_right Z.max 0%Z ns)) as [[_ ->]|[_ ->]].
  - destruct IH as [IH|IH]; [left; exact IH | right; right; exact IH].
  - right; left; reflexivity.
Qed.

End ArchiveFacts.


Module ArchiveClaims.
Import Py PyFacts IntFacts DecimalFacts Fs Orchestrator ArchiveFacts Examples.

Lemma max_archive_of_numbers (tasks : dir) (ns : list Z) :
  Forall (fun n => 0 <= n)%Z ns ->
  (forall f, In f (names tasks) ->
     f = session_current \/
     (exists n, In n ns /\ f = archive_name n) \/
     glob_match (L "session-") (L ".md") f = false) ->
  (forall n, In n ns -> In (archive_name n) (names tasks)) ->
  max_archive (filter (glob_match (L "session-") (L ".md")) (names tasks)) 0%Z
  = fold_right Z.max 0%Z ns.
Proof.
  intros Hns Hfiles Hall. rewrite Forall_forall in Hns.
  apply Z.le_antisymm.
  - apply max_archive_bound; [apply fold_max_ge|].
    intros f num Hf Hcur Hnum. apply filter_In in Hf as [Hf Hglob].
    destruct (Hfiles f Hf) as [->|[(n & Hn & ->)|Hno]].
    + rewrite str_eqb_refl in Hcur. discriminate.
    + rewrite archive_number_name in Hnum by (apply Hns, Hn).
      injection Hnum as <-. apply fold_max_in, Hn.
    + congruence.
  - destruct (fold_max_attained ns) as [E|Hin].
    + rewrite E. apply max_archive_ge.
    + apply (max_archive_reaches _ _ _ (archive_name (fold_right Z.max 0%Z ns))).
      * apply filter_In. split; [apply Hall, Hin | apply archive_name_glob].
      * apply archive_name_not_current, fold_max_ge.
      * apply archive_number_name, fold_max_ge.
Qed.

(** C5.  [Archive] without a current session document leaves the tasks
    directory as it is.  With one, in a directory whose other session
    files are the archives numbered by [ns] (in any order, gaps or not),
    it renames the current document to the archive numbered one more than
    the highest of [ns], or 1 when there is none: that name was not in
    use, it now holds the text of the session, the current document is
    gone and every other file is as before. *)
Theorem archive_session_spec (tasks : dir) :
  (lookup session_current tasks = None -> archive_session tasks = tasks)
  /\
  (forall (content : str) (ns : list Z),
     lookup session_current tasks = Some content ->
     Forall (fun n => 0 <= n)%Z ns ->
     (forall f, In f (names tasks) ->
        f = session_current \/
        (exists n, In n ns /\ f = archive_name n) \/
        glob_match (L "session-") (L ".md") f = false) ->
     (forall n, In n ns -> In (archive_name n) (names tasks)) ->
     let slot := archive_name (fold_right Z.max 0 ns + 1)%Z in
     archive_session tasks = rename session_current slot tasks /\
     ~ In slot (names tasks) /\
     lookup slot (archive_session tasks) = Some content /\
     lookup session_current (archive_session tasks) = None /\
     (forall f, f <> session_current -> f <> slot ->
                lookup f (archive_session tasks) = lookup f tasks)).
Proof.
  split.
  - intros H. unfold archive_session. rewrite H. reflexivity.
  - intros content ns Hcur Hns Hfiles Hall slot.
    pose proof (fold_max_ge ns) as Hk.
    assert (Hslot : str_eqb slot session_current = false)
      by (apply archive_name_not_current; lia).
    assert (E : archive_session tasks = rename session_current slot tasks).
    { unfold archive_session. rewrite Hcur.
      rewrite (max_archive_of_numbers tasks ns Hns Hfiles Hall). reflexivity. }
    rewrite E. unfold rename. rewrite Hcur.
    split; [reflexivity|]. split; [|split; [|split]].
    + intros Hin. destruct (Hfiles slot Hin) as [Hs|[(n & Hn & Hs)|Hno]].
      * rewrite Hs, str_eqb_refl in Hslot. discriminate.
      * rewrite Forall_forall in Hns.
        apply archive_name_inj in Hs; [|lia|apply Hns, Hn].
        pose proof (fold_max_in ns n Hn). lia.
      * unfold slot in Hno. rewrite archive_name_glob in Hno. discriminate.
    + cbn [lookup]. rewrite str_eqb_refl. reflexivity.
    + cbn [lookup]. rewrite Hslot, !lookup_remove, Hslot, str_eqb_refl.
      reflexivity.
    + intros f Hf1 Hf2. cbn [lookup].
      assert (E1 : str_eqb slot f = false) by (apply str_eqb_neq; congruence).
      assert (E2 : str_eqb session_current f = false)
        by (apply str_eqb_neq; congruence).
      rewrite E1, !lookup_remove, E1, E2. reflexivity.
Qed.

Lemma archive_session_spec_witness :
  archive_session tasks_with_gaps =
    rename session_current (L "session-8.md") tasks_with_gaps /\
  lookup (L "session-8.md") (archive_session tasks_with_gaps) =
    Some (L "current") /\
  archive_session [ (L "notes.md", L "n") ] = [ (L "notes.md", L "n") ].
Proof.
  destruct (proj2 (archive_session_spec tasks_with_gaps) (L "current") [7; 2]%Z)
    as (H1 & _ & H2 & _).
  - reflexivity.
  - repeat constructor; lia.
  - intros f [<-|[<-|[<-|[]]]].
    + right; left. exists 7%Z. split; [left; reflexivity | reflexivity].
    + left; reflexivity.
    + right; left. exists 2%Z. split; [right; left; reflexivity | reflexivity].
  - intros n [<-|[<-|[]]]; simpl; [left | right; right; left]; reflexivity.
  - split; [exact H1|]. split; [exact H2|].
    apply (proj1 (archive_session_spec [ (L "notes.md", L "n") ])).
    reflexivity.
Defined.

End ArchiveClaims.


Module MatchFacts.
Import Py Re ReSpec PyFacts ReFacts.

(** ** Repetition of a class of characters *)

Lemma star_cls_greedy (p : ascii -> bool) (k : cont) :
  forall fuel prev s c,
    (length s < fuel)%nat ->
    star_loop (m (Cls p)) k fuel prev s c = greedy p k prev s c.
Proof.
  induction fuel as [|f IH]; intros prev s c Hf; [lia|].
  destruct s as [|a s]; simpl.
  - reflexivity.
  - destruct (p a); [|reflexivity].
    assert (E : Nat.ltb (length s) (S (length s)) = true)
      by (apply Nat.ltb_lt; lia).
    simpl in E. rewrite E. rewrite IH by (simpl in Hf; lia). reflexivity.
Qed.

Lemma m_star_cls (p : ascii -> bool) (k : cont) prev s c :
  m (Star (Cls p)) k prev s c = greedy p k prev s c.
Proof. apply star_cls_greedy. lia. Qed.



(** The longest run wins when the rest of the pattern matches after it. *)
Lemma greedy_run (p : ascii -> bool) (k : cont) (x t : str) :
  forall prev c res,
    forallb p x = true ->
    stops p t ->
    k (after x prev) t c = Some res ->
    greedy p k prev (x ++ t) c = Some res.
Proof.
  induction x as [|a x IH]; intros prev c res Hx Ht Hk.
  - simpl in *. destruct t as [|b t]; [exact Hk|].
    simpl. simpl in Ht. rewrite Ht. exact Hk.
  - simpl in Hx. apply andb_true_iff in Hx as [Ha Hx].
    simpl. rewrite Ha. rewrite (IH (Some a) c res Hx Ht Hk). reflexivity.
Qed.




(** ** Groups of one or more characters of a class *)

Lemma m_cls_cons (p : ascii -> bool) (k : cont) prev a s c :
  m (Cls p) k prev (a :: s) c = if p a then k (Some a) s c else None.
Proof. reflexivity. Qed.

Lemma m_seq (r1 r2 : regex) (k : cont) prev s c :
  m (Seq r1 r2) k prev s c = m r1 (m r2 k) prev s c.
Proof. reflexivity. Qed.

Lemma m_group (n : nat) (r : regex) (k : cont) prev s c :
  m (Group n r) k prev s c =
  m r (fun p' s' c' => k p' s' ((n, firstn (length s - length s') s) :: c'))
    prev s c.
Proof. reflexivity. Qed.

Lemma m_plus_cls_run (p : ascii -> bool) (k : cont) (x t : str) prev c res :
  x <> [] -> forallb p x = true -> stops p t ->
  k (after x prev) t c = Some res ->
  m (Plus (Cls p)) k prev (x ++ t) c = Some res.
Proof.
  intros Hne Hx Ht Hk. destruct x as [|a x]; [congruence|].
  simpl in Hx. apply andb_true_iff in Hx as [Ha Hx].
  unfold Plus. rewrite m_seq. change ((a :: x) ++ t) with (a :: x ++ t).
  rewrite m_cls_cons, Ha, m_star_cls.
  apply greedy_run; assumption.
Qed.



(** ** Literals *)

Lemma lit_k_startswith (l : str) (k : cont) :
  forall prev s c,
    startswith l s = true ->
    lit_k Ascii.eqb l k prev s c = k (after l prev) (skipn (length l) s) c.
Proof.
  induction l as [|x l IH]; intros prev s c H; [reflexivity|].
  destruct s as [|a s]; [discriminate|]. simpl in H.
  apply andb_true_iff in H as [Hxa H]. simpl. rewrite Hxa.
  apply Ascii.eqb_eq in Hxa as ->. apply IH, H.
Qed.


Lemma m_lit (l : str) (k : cont) prev s c :
  startswith l s = true ->
  m (Lit l) k prev s c = k (after l prev) (skipn (length l) s) c.
Proof. apply lit_k_startswith. Qed.


(** ** Searching past a text in which the pattern cannot begin *)





End MatchFacts.


Module BlockFacts.
Import Py Re ReSpec PyFacts ReFacts MatchFacts.

Lemma skipn_app_exact (x t : str) : skipn (length x) (x ++ t) = t.
Proof. induction x as [|a x IH]; simpl; [reflexivity | exact IH]. Qed.

Lemma m_lit_app (l : str) (k : cont) prev s c :
  m (Lit l) k prev (l ++ s) c = k (after l prev) s c.
Proof.
  rewrite m_lit by apply startswith_app. rewrite skipn_app_exact. reflexivity.
Qed.



(** ** Loops over lines *)

Section Lines.

Variable body : regex.
Variable is_line : str -> Prop.

Hypothesis line_nonempty : forall l, is_line l -> l <> [].
Hypothesis body_line :
  forall (k : cont) prev l rest c,
    is_line l -> m body k prev (l ++ rest) c = k (Some nl) rest c.



End Lines.

(** ** Literals that cannot begin inside a text *)







(** ** A block under a heading *)




End BlockFacts.


Module StripFacts.
Import Py PyFacts.










End StripFacts.

Module ClassFacts.
Import Py PyFacts IntFacts.






End ClassFacts.


Module GrammarFacts.
Import Py Re ReSpec PySpec PyFacts ReFacts IntFacts DecimalFacts MatchFacts
       BlockFacts StripFacts ClassFacts Session SessionSpec.

(** ** What a session that fits the grammar is made of *)






(** ** The text of a session, heading by heading *)



(** ** The name *)


End GrammarFacts.


Module HeadingFacts.
Import Py Re ReSpec PySpec PyFacts ReFacts IntFacts DecimalFacts MatchFacts
       BlockFacts StripFacts ClassFacts Session SessionSpec GrammarFacts.

(** ** No heading begins inside the blocks before it *)






Section Blocks.

Variable s : Session.
Hypothesis Hfits : fits s = true.







(** ** The search for each heading arrives at its block *)





End Blocks.

End HeadingFacts.


Module BlockSteps.
Import Py Re ReSpec PySpec PyFacts ReFacts IntFacts DecimalFacts MatchFacts
       BlockFacts StripFacts ClassFacts Session SessionSpec GrammarFacts
       HeadingFacts.

(** ** The request and the log *)



Section Steps.

Variable s : Session.
Hypothesis Hfits : fits s = true.




End Steps.

End BlockSteps.


Module PhaseSteps.
Import Py Re ReSpec PySpec PyFacts ReFacts IntFacts DecimalFacts MatchFacts
       BlockFacts StripFacts ClassFacts Session SessionSpec GrammarFacts
       HeadingFacts ArchiveFacts.


(** ** One line of a list: text up to the line feed *)






(** ** Back from the lines to the phases *)













Section Steps.

Variable s : Session.
Hypothesis Hfits : fits s = true.



End Steps.

End PhaseSteps.


Module StatusSteps.
Import Py Re ReSpec PySpec PyFacts ReFacts IntFacts DecimalFacts MatchFacts
       BlockFacts StripFacts ClassFacts Session SessionSpec GrammarFacts
       HeadingFacts PhaseSteps.






Section Steps.

Variable s : Session.
Hypothesis Hfits : fits s = true.







End Steps.

End StatusSteps.


Module RoundTripSteps.
Import Py Re ReSpec PySpec PyFacts Session SessionSpec GrammarFacts
       BlockSteps PhaseSteps StatusSteps Examples.



End RoundTripSteps.


Module FitFacts.
Import Py Re ReSpec PySpec PyFacts IntFacts DecimalFacts MatchFacts BlockFacts
       StripFacts ClassFacts Session SessionSpec SessionFacts GrammarFacts
       BlockSteps.

(** ** Occurrences of a literal in a text made of parts *)






(** ** Marking a phase keeps a session fit *)

Lemma phase_fits_flag (p : Phase) :
  phase_fits p = true -> phase_fits (with_flag_set p) = true.
Proof. intros H. exact H. Qed.






End FitFacts.


Module RoundTripClaims.
Import Py Session SessionSpec RoundTripSteps FitFacts Examples.



End RoundTripClaims.


Module MarkFacts.
Import Py Re PyFacts Session SessionSpec SessionTotal SessionFacts Runs.

(** ** The phase that a call marks *)





(** ** Sessions in which every flag is set *)

Lemma next_incomplete_none (ps : list Phase) :
  next_incomplete ps = None <-> all_complete ps.
Proof.
  split.
  - intros H. pose proof (next_incomplete_first ps) as F. rewrite H in F. exact F.
  - intros H. apply (first_incomplete_unique ps); [apply next_incomplete_first | exact H].
Qed.

Lemma remaining_nil (ps : list Phase) :
  filter (fun p => negb (complete p)) ps = [] <-> all_complete ps.
Proof.
  unfold all_complete. induction ps as [|p ps IH]; simpl.
  - split; [constructor | reflexivity].
  - destruct (complete p) eqn:E; simpl.
    + rewrite IH. split; [intros H; constructor; assumption|].
      intros H. inversion H; assumption.
    + split; [discriminate|]. intros H. inversion H; congruence.
Qed.

Lemma completed_and_remaining (ps : list Phase) :
  length (filter complete ps) + length (filter (fun p => negb (complete p)) ps)
  = length ps.
Proof.
  induction ps as [|p ps IH]; simpl; [reflexivity|].
  destruct (complete p); simpl; lia.
Qed.

(** ** What a successful call leaves *)

Lemma mark_complete_state (s : Session) (k : Z) (notes : str) (s' : Session) :
  mark_complete s k notes = inr s' ->
  (next_incomplete (phases s') = None ->
     state s' = L "complete" /\ current_agent s' = L "none") /\
  (forall q, next_incomplete (phases s') = Some q ->
     state s' = L "pending" /\ current_agent s' = agent q /\
     phase s' = number q).
Proof.
  unfold mark_complete. destruct (mark_first (phases s) k) as [[ps a]|]; [|discriminate].
  intros H. injection H as <-. cbn [phases state current_agent phase].
  split.
  - intros ->. split; reflexivity.
  - intros q ->. repeat split.
Qed.

(** ** Phases with the same fields, flags apart *)












(** ** A number that two phases carry *)






(** ** The text of a session and its log *)




End MarkFacts.


Module SessionProperties.
Import Py Re PyFacts Session SessionSpec SessionTotal SessionFacts Runs
       MarkFacts RoundTripSteps FitFacts Examples RunExamples.

Lemma contains_app_r (p x t : str) :
  contains p t = true -> contains p (x ++ t) = true.
Proof.
  intros H. induction x as [|a x IH]; [exact H|].
  change ((a :: x) ++ t) with (a :: x ++ t). cbn [contains].
  rewrite IH. apply orb_true_r.
Qed.






(** X4.  The reply of [session_is_complete], for every session: the
    phases counted as completed and those listed as remaining are all
    the phases; the session is reported complete exactly when nothing
    remains, exactly when all the phases are counted as completed and
    exactly when [session_get_next_phase] has no phase left; a session
    without phases is reported complete. *)
Theorem completion_reply_counts (s : Session) :
  let r := is_complete_reply s in
  completed_count r + length (remaining r) = total_count r /\
  (is_complete r = true <-> remaining r = []) /\
  (is_complete r = true <-> completed_count r = total_count r) /\
  (is_complete r = true <-> get_next_phase s = NextAllComplete) /\
  (phases s = [] -> is_complete r = true /\ total_count r = 0).
Proof.
  unfold is_complete_reply. cbn [is_complete completed_count total_count remaining].
  pose proof (completed_and_remaining (phases s)) as Hsum.
  pose proof (remaining_nil (phases s)) as Hrem.
  pose proof (next_incomplete_none (phases s)) as Hall.
  rewrite length_map.
  split; [exact Hsum|].
  split.
  { rewrite Nat.eqb_eq. split; intros H.
    - apply length_zero_iff_nil in H. rewrite H. reflexivity.
    - apply map_eq_nil in H. rewrite H. reflexivity. }
  split; [rewrite Nat.eqb_eq; lia|].
  split.
  { rewrite Nat.eqb_eq, length_zero_iff_nil, Hrem, <- Hall.
    unfold get_next_phase. destruct (next_incomplete (phases s)).
    - split; discriminate.
    - split; reflexivity. }
  intros ->. split; reflexivity.
Qed.

(** X5.  In a session whose phase numbers increase in the order of the
    document, the phases that [session_get_next_phase] gives as
    [depends_on] are the agents of all the phases listed before the one
    it returns, in the order of the document. *)
Theorem depends_on_earlier_phases (s : Session) (pre : list Phase) (p : Phase)
        (post : list Phase) :
  increasing (phases s) ->
  phases s = pre ++ p :: post -> all_complete pre -> complete p = false ->
  get_next_phase s =
    NextPhase (number p) (agent p) (description p) (map agent pre)
      (user_request s).
Proof.
  intros Hinc Hps Hpre Hp. unfold get_next_phase.
  assert (Hnext : next_incomplete (phases s) = Some p).
  { apply (first_incomplete_unique (phases s)); [apply next_incomplete_first|].
    exists pre, post. repeat split; assumption. }
  rewrite Hnext. f_equal. f_equal.
  unfold increasing in Hinc. rewrite Hps in *. clear Hps Hnext.
  rewrite map_app in Hinc. simpl in Hinc.
  rewrite filter_app. simpl. rewrite Hp. simpl.
  assert (Hpost : filter (fun q => (complete q && (number q <? number p)%Z)%bool) post = []).
  { apply sorted_tail in Hinc. apply StronglySorted_inv in Hinc as [_ Hall].
    rewrite Forall_forall in Hall.
    induction post as [|q post IH]; [reflexivity|]. simpl.
    assert (number p < number q)%Z by (apply Hall; left; reflexivity).
    destruct (Z.ltb_spec (number q) (number p)); [lia|].
    rewrite andb_false_r. apply IH. intros x Hx. apply Hall. right; exact Hx. }
  rewrite Hpost, app_nil_r.
  clear Hpost. revert Hinc Hpre. unfold all_complete.
  induction pre as [|q pre IH]; intros Hinc Hpre; [reflexivity|].
  simpl in Hinc. inversion Hpre as [|? ? Hq Hpre']; subst.
  apply StronglySorted_inv in Hinc as [Hinc Hall].
  rewrite Forall_forall in Hall. simpl. rewrite Hq.
  assert (number q < number p)%Z by (apply Hall; apply in_elt).
  destruct (Z.ltb_spec (number q) (number p)); [|lia].
  simpl. rewrite (IH Hinc Hpre'). reflexivity.
Qed.

Lemma depends_on_earlier_phases_witness :
  get_next_phase scenario_marked =
    NextPhase 3 (L "c") (L "z") [L "a"; L "b"] (L "build it").
Proof.
  apply (depends_on_earlier_phases scenario_marked
           [ mkPhase 1 true (L "a") (L "x"); mkPhase 2 true (L "b") (L "y") ]
           (mkPhase 3 false (L "c") (L "z")) []).
  - unfold increasing. simpl. repeat constructor.
  - reflexivity.
  - repeat constructor.
  - reflexivity.
Defined.








(** X10.  When [session_mark_phase_complete] replies that all phases
    are complete, the file that it has written is one that
    [is_session_complete] of [main.py] finds complete, whatever the file
    was before: the loop of the orchestrator stops after the call. *)
Theorem last_mark_ends_the_run (content : str) (k : Z) (notes : str)
        (file : option str) (n : Z) (next_phase : option Z)
        (next_agent : option str) :
  session_mark_phase_complete (Some content) k notes =
    Some (file, MarkDone n next_phase next_agent true) ->
  Orchestrator.is_session_complete file = true.
Proof.
  unfold session_mark_phase_complete.
  destruct (parse_session content) as [s|]; [|discriminate].
  destruct (mark_complete s k notes) as [e|s'] eqn:E; [discriminate|].
  destruct (mark_complete_state _ _ _ _ E) as [Hnone _].
  destruct (next_incomplete (phases s')) as [q|]; [discriminate|].
  destruct (Hnone eq_refl) as [Hst _].
  intros H. injection H as <- _ _ _.
  unfold Orchestrator.is_session_complete.
  assert (Hc : contains (L "State: complete") (format_session s') = true).
  { unfold format_session. rewrite Hst.
    repeat first [ solve [vm_compute; reflexivity] | apply contains_app_r ]. }
  rewrite Hc. reflexivity.
Qed.

Lemma last_mark_ends_the_run_witness :
  Orchestrator.is_session_complete
    (Some (format_session scenario_done)) = true.
Proof.
  apply (last_mark_ends_the_run (format_session scenario_marked) 3 []
           (Some (format_session scenario_done)) 3 None None).
  vm_compute. reflexivity.
Defined.

End SessionProperties.


Module ArchiveProperties.
Import Py PyFacts IntFacts DecimalFacts Fs Orchestrator ArchiveFacts Examples.
Local Open Scope Z_scope.

Lemma names_remove (n f : str) (d : dir) :
  In f (names (remove n d)) -> In f (names d) /\ f <> n.
Proof.
  unfold names, remove. intros H. apply in_map_iff in H as ([x c] & <- & H).
  apply filter_In in H as [H E]. simpl in *. split.
  - apply in_map_iff. exists (x, c). split; [reflexivity | exact H].
  - apply negb_true_iff, str_eqb_neq in E. exact E.
Qed.

Lemma lookup_absent (n : str) (d : dir) : ~ In n (names d) -> lookup n d = None.
Proof.
  intros H. destruct (lookup n d) eqn:E; [|reflexivity].
  exfalso. apply H. exact (lookup_in_names _ _ _ E).
Qed.

(** The slot that [archive_session] takes is above every number in use. *)
Lemma archived_below (tasks : dir) (f : str) (num : Z) :
  In f (names tasks) -> glob_match (L "session-") (L ".md") f = true ->
  f <> session_current -> archive_number f = Some num ->
  num <= max_archive (filter (glob_match (L "session-") (L ".md")) (names tasks)) 0.
Proof.
  intros Hin Hg Hc Hn. apply (max_archive_reaches _ _ _ f).
  - apply filter_In. split; assumption.
  - apply str_eqb_neq. exact Hc.
  - exact Hn.
Qed.

Lemma slot_is_free (tasks : dir) :
  ~ In (archive_name
          (max_archive (filter (glob_match (L "session-") (L ".md")) (names tasks)) 0 + 1))
       (names tasks).
Proof.
  set (top := max_archive _ 0).
  assert (Htop : 0 <= top) by apply max_archive_ge.
  intros Hin.
  assert (top + 1 <= top); [|lia].
  apply (archived_below tasks (archive_name (top + 1))).
  - exact Hin.
  - apply archive_name_glob.
  - apply str_eqb_neq, archive_name_not_current. lia.
  - apply archive_number_name. lia.
Qed.

Lemma archive_session_moves (tasks : dir) (content : str) :
  lookup session_current tasks = Some content ->
  exists n,
    1 <= n /\
    archive_session tasks = rename session_current (archive_name n) tasks /\
    ~ In (archive_name n) (names tasks) /\
    (forall f num,
       In f (names tasks) -> glob_match (L "session-") (L ".md") f = true ->
       f <> session_current -> archive_number f = Some num -> num < n) /\
    lookup (archive_name n) (archive_session tasks) = Some content /\
    lookup session_current (archive_session tasks) = None /\
    (forall f, f <> session_current -> f <> archive_name n ->
               lookup f (archive_session tasks) = lookup f tasks).
Proof.
  intros Hcur. unfold archive_session. rewrite Hcur.
  set (top := max_archive _ 0).
  assert (Htop : 0 <= top) by apply max_archive_ge.
  exists (top + 1). split; [lia|]. split; [reflexivity|].
  split; [apply slot_is_free|].
  split.
  { intros f num H1 H2 H3 H4. pose proof (archived_below tasks f num H1 H2 H3 H4).
    fold top in H. lia. }
  assert (Hslot : str_eqb (archive_name (top + 1)) session_current = false)
    by (apply archive_name_not_current; lia).
  unfold rename. rewrite Hcur. cbn [lookup]. rewrite str_eqb_refl, Hslot.
  split; [reflexivity|]. split.
  - rewrite !lookup_remove, Hslot, str_eqb_refl. reflexivity.
  - intros f Hf1 Hf2.
    assert (E1 : str_eqb (archive_name (top + 1)) f = false)
      by (apply str_eqb_neq; congruence).
    assert (E2 : str_eqb session_current f = false)
      by (apply str_eqb_neq; congruence).
    rewrite E1, !lookup_remove, E1, E2. reflexivity.
Qed.



(** X12.  Sessions archived one after the other get numbers that
    follow each other: when a session has been archived and another one
    has been written and archived in turn, the first is in the archive
    of some number [n], the second in the archive of [n + 1], and no
    current session is left; and [archive_session] called again without
    a new session does nothing. *)
Theorem archives_are_numbered_in_turn (tasks : dir) (c1 c2 : str) :
  lookup session_current tasks = Some c1 ->
  let once := archive_session tasks in
  let twice := archive_session (write session_current c2 once) in
  archive_session once = once /\
  exists n,
    1 <= n /\
    lookup (archive_name n) once = Some c1 /\
    lookup (archive_name n) twice = Some c1 /\
    lookup (archive_name (n + 1)) twice = Some c2 /\
    lookup session_current twice = None.
Proof.
  intros Hcur once twice.
  destruct (archive_session_moves tasks c1 Hcur)
    as (n & Hn & Honce & Hfree & Hbelow & Hslot & Hgone & Hrest).
  fold once in Honce, Hslot, Hgone, Hrest.
  split.
  { unfold archive_session at 1. rewrite Hgone. reflexivity. }
  exists n. split; [exact Hn|]. split; [exact Hslot|].
  assert (Hsc : str_eqb (archive_name n) session_current = false)
    by (apply archive_name_not_current; lia).
  assert (Hsc' : str_eqb session_current (archive_name n) = false).
  { apply str_eqb_neq. intros E. rewrite E, str_eqb_refl in Hsc. discriminate. }
  (* the files after the second session has been written *)
  set (t := write session_current c2 once) in *.
  assert (Hcur2 : lookup session_current t = Some c2)
    by (unfold t, write; cbn [lookup]; rewrite str_eqb_refl; reflexivity).
  assert (Hslot2 : lookup (archive_name n) t = Some c1).
  { unfold t, write. cbn [lookup]. rewrite Hsc', lookup_remove, Hsc'. exact Hslot. }
  assert (Hnames : forall f, In f (names t) ->
            f = session_current \/ f = archive_name n \/
            (In f (names tasks) /\ f <> session_current)).
  { intros f Hf. unfold t, write in Hf. simpl in Hf. destruct Hf as [<-|Hf]; [auto|].
    apply names_remove in Hf as [Hf Hne]. right.
    rewrite Honce in Hf. unfold rename in Hf. rewrite Hcur in Hf. simpl in Hf.
    destruct Hf as [<-|Hf]; [auto|].
    apply names_remove in Hf as [Hf _]. apply names_remove in Hf as [Hf _]. auto. }
  assert (Htop : max_archive
                   (filter (glob_match (L "session-") (L ".md")) (names t)) 0 = n).
  { apply Z.le_antisymm.
    - apply max_archive_bound; [lia|].
      intros f num Hf Hc Hnum. apply filter_In in Hf as [Hf Hg].
      destruct (Hnames f Hf) as [->|[->|[Hin Hne]]].
      + rewrite str_eqb_refl in Hc. discriminate.
      + rewrite archive_number_name in Hnum by lia. injection Hnum as <-. lia.
      + pose proof (Hbelow f num Hin Hg Hne Hnum). lia.
    - apply (max_archive_reaches _ _ _ (archive_name n)).
      + apply filter_In. split; [|apply archive_name_glob].
        exact (lookup_in_names _ _ _ Hslot2).
      + exact Hsc.
      + apply archive_number_name. lia. }
  assert (Htwice : twice = rename session_current (archive_name (n + 1)) t).
  { unfold twice, archive_session. rewrite Hcur2, Htop. reflexivity. }
  assert (Hs1 : str_eqb (archive_name (n + 1)) session_current = false)
    by (apply archive_name_not_current; lia).
  assert (Hs2 : str_eqb (archive_name (n + 1)) (archive_name n) = false).
  { apply str_eqb_neq. intros E. apply archive_name_inj in E; lia. }
  rewrite Htwice. unfold rename. rewrite Hcur2. cbn [lookup].
  rewrite Hs2, Hs1, str_eqb_refl, !lookup_remove, Hs2, Hsc', Hs1, str_eqb_refl.
  repeat split. exact Hslot2.
Qed.

Lemma archives_are_numbered_in_turn_witness :
  exists n,
    lookup (archive_name n)
      (archive_session
         (write session_current (L "next") (archive_session tasks_with_gaps)))
      = Some (L "current") /\
    lookup (archive_name (n + 1))
      (archive_session
         (write session_current (L "next") (archive_session tasks_with_gaps)))
      = Some (L "next").
Proof.
  destruct (archives_are_numbered_in_turn tasks_with_gaps (L "current") (L "next")
              eq_refl) as (_ & n & _ & _ & H1 & H2 & _).
  exists n. split; [exact H1 | exact H2].
Defined.

End ArchiveProperties.


Module DiscoverFacts.
Import Py Re ReSpec PyFacts ReFacts CaptureFacts Fs Audit AuditSpec AuditFacts
       AuditClaims ArchiveFacts ArchiveProperties.

(** ** Reading a definition file *)

Lemma header_fields_total (lines : list str) (nm ds : str) :
  exists r, header_fields lines nm ds = Some r.
Proof.
  revert nm ds. induction lines as [|line lines IH]; intros nm ds.
  - eexists; reflexivity.
  - cbn [header_fields]. cbv zeta.
    destruct (startswith (L "name:") (strip line)) eqn:E1.
    + apply startswith_inv in E1 as [t ->].
      change (split1 ":" (L "name:" ++ t)) with [L "name"; t].
      cbn [nth_error]. apply IH.
    + destruct (startswith (L "description:") (strip line)) eqn:E2; [|apply IH].
      apply startswith_inv in E2 as [t ->].
      change (split1 ":" (L "description:" ++ t)) with [L "description"; t].
      cbn [nth_error]. apply IH.
Qed.

Lemma scrape_paths_total (label content : str) :
  exists r, scrape_paths label content = Some r.
Proof.
  unfold scrape_paths. destruct (re_search (re_paths label) content) as [mt|] eqn:E.
  - destruct (re_search_defines _ _ _ 1 E eq_refl) as [g ->]. eexists; reflexivity.
  - eexists; reflexivity.
Qed.

Lemma parse_agent_file_total (fname content : str) :
  exists r, parse_agent_file fname content = Some r.
Proof.
  unfold parse_agent_file.
  destruct (re_match re_frontmatter content) as [mt|] eqn:E; [|eexists; reflexivity].
  destruct (re_match_defines _ _ _ 1 E eq_refl) as [g ->].
  destruct (header_fields_total (split nl g) [] []) as [nd ->].
  destruct (scrape_paths_total (L "Files I OWN") content) as [ow ->].
  destruct (scrape_paths_total (L "NEVER touch") content) as [nt ->].
  eexists; reflexivity.
Qed.

Lemma discover_total (files : dir) : exists r, discover files = Some r.
Proof.
  induction files as [|[fname content] files [ds IH]]; [eexists; reflexivity|].
  cbn [discover].
  destruct (glob_match [] (L ".md") fname); cbn [negb]; [|exists ds; exact IH].
  destruct (str_eqb fname agents_md); [exists ds; exact IH|].
  destruct (parse_agent_file_total fname content) as [a ->]. rewrite IH.
  eexists; reflexivity.
Qed.

(** The registry is not one of the definition files. *)
Lemma discover_remove (files : dir) :
  discover (remove agents_md files) = discover files.
Proof.
  induction files as [|[fname content] files IH]; [reflexivity|].
  unfold remove in *. cbn [filter fst]. destruct (str_eqb fname agents_md) eqn:E.
  - cbn [negb]. rewrite IH. cbn [discover]. rewrite E.
    destruct (glob_match [] (L ".md") fname); reflexivity.
  - cbn [negb discover]. rewrite E, IH. reflexivity.
Qed.

Lemma discover_write (content : str) (files : dir) :
  discover (write agents_md content files) = discover files.
Proof. unfold write. cbn [discover]. apply discover_remove. Qed.

Lemma lookup_write (n c : str) (d : dir) : lookup n (write n c d) = Some c.
Proof. unfold write. cbn [lookup]. rewrite str_eqb_refl. reflexivity. Qed.

Lemma lookup_write_other (n c f : str) (d : dir) :
  f <> n -> lookup f (write n c d) = lookup f d.
Proof.
  intros H. unfold write. cbn [lookup].
  assert (E : str_eqb n f = false) by (apply str_eqb_neq; congruence).
  rewrite E, lookup_remove, E. reflexivity.
Qed.

(** ** Texts that pass the validation *)

Lemma generated_valid (agents : list DiscoveredAgent) (project_name : str) :
  validate_agents_md (generate_agents_md agents project_name) = (true, []).
Proof.
  apply validate_all_present; [left|..]; unfold generate_agents_md; find_mention.
Qed.

Lemma minimal_valid (project_name : str) :
  validate_agents_md (generate_minimal_agents_md project_name) = (true, []).
Proof.
  apply validate_all_present; [left|..]; unfold generate_minimal_agents_md;
    find_mention.
Qed.

Lemma validate_ok (content : str) :
  fst (validate_agents_md content) = true <-> snd (validate_agents_md content) = [].
Proof.
  unfold validate_agents_md. cbn [fst snd]. rewrite Nat.eqb_eq.
  apply length_zero_iff_nil.
Qed.

(** ** Texts inside texts *)




(** ** The issues of the validation *)


(** ** The audit with repair *)

Lemma audit_repair (p : Project) :
  exists r files' content,
    audit_project p true =
      Some (r, {| project_name := project_name p; claude_dir := true;
                  agents_dir := Some files'; tasks_dir := true |}) /\
    has_claude_dir r = true /\ has_agents_dir r = true /\
    has_agents_md r = true /\ agents_md_valid r = true /\
    lookup agents_md files' = Some content /\
    validate_agents_md content = (true, []) /\
    discover files' = Some (discovered_agents r) /\
    (forall f, f <> agents_md ->
       lookup f files' =
       lookup f (match agents_dir p with Some d => d | None => [] end)) /\
    (forall c, lookup agents_md
                 (match agents_dir p with Some d => d | None => [] end) = Some c ->
               fst (validate_agents_md c) = true ->
               agents_dir p = Some files' /\ issues r = [] /\
               actions_taken r =
                 (if claude_dir p then [] else [L "Created .claude/ directory"]) ++
                 (if tasks_dir p then [] else [L "Created .claude/tasks/ directory"])).
Proof.
  unfold audit_project.
  set (files := match agents_dir p with Some d => d | None => [] end).
  destruct (discover_total files) as [ds Hds]. rewrite Hds.
  assert (Hwritten : forall text,
            validate_agents_md text = (true, []) ->
            lookup agents_md (write agents_md text files) = Some text /\
            validate_agents_md text = (true, []) /\
            discover (write agents_md text files) = Some ds /\
            (forall f, f <> agents_md ->
               lookup f (write agents_md text files) = lookup f files)).
  { intros text Ht. split; [apply lookup_write|]. split; [exact Ht|].
    split; [rewrite discover_write; exact Hds|].
    intros f Hf. apply lookup_write_other, Hf. }
  destruct (lookup agents_md files) as [c|] eqn:Hreg.
  - pose proof (validate_ok c) as Hok.
    destruct (validate_agents_md c) as [valid issues0] eqn:Hv. cbn [fst snd] in Hok.
    assert (Hdir : agents_dir p = Some files).
    { unfold files in *. destruct (agents_dir p); [reflexivity | discriminate Hreg]. }
    destruct valid; cbn [negb orb].
    + rewrite (proj1 Hok eq_refl) in *.
      eexists; exists files, c. split; [reflexivity|].
      cbn [has_claude_dir has_agents_dir has_agents_md agents_md_valid
           discovered_agents issues actions_taken].
      do 4 (split; [reflexivity|]).
      split; [exact Hreg|]. split; [exact Hv|]. split; [exact Hds|].
      split; [reflexivity|].
      intros c' _ _. split; [exact Hdir|]. split; [reflexivity|].
      rewrite Hdir. reflexivity.
    + assert (Hlast : forall c', Some c = Some c' ->
                fst (validate_agents_md c') = true -> False).
      { intros c' Hc' Hv'. injection Hc' as <-. rewrite Hv in Hv'. discriminate. }
      destruct ds as [|d ds].
      * eexists; eexists; exists (generate_minimal_agents_md (project_name p)).
        split; [reflexivity|].
        cbn [has_claude_dir has_agents_dir has_agents_md agents_md_valid
             discovered_agents issues actions_taken].
        do 4 (split; [reflexivity|]).
        destruct (Hwritten _ (minimal_valid (project_name p))) as (H1 & H2 & H3 & H4).
        repeat (split; [assumption|]).
        intros c' Hc' Hv'. destruct (Hlast c' Hc' Hv').
      * eexists; eexists;
          exists (generate_agents_md (d :: ds)
                    (title (replace_char "-" " " (project_name p)))).
        split; [reflexivity|].
        cbn [has_claude_dir has_agents_dir has_agents_md agents_md_valid
             discovered_agents issues actions_taken].
        do 4 (split; [reflexivity|]).
        destruct (Hwritten _ (generated_valid (d :: ds)
                                (title (replace_char "-" " " (project_name p)))))
          as (H1 & H2 & H3 & H4).
        repeat (split; [assumption|]).
        intros c' Hc' Hv'. destruct (Hlast c' Hc' Hv').
  - cbn [negb orb]. destruct ds as [|d ds].
    + eexists; eexists; exists (generate_minimal_agents_md (project_name p)).
      split; [reflexivity|].
      cbn [has_claude_dir has_agents_dir has_agents_md agents_md_valid
           discovered_agents issues actions_taken].
      do 4 (split; [reflexivity|]).
      destruct (Hwritten _ (minimal_valid (project_name p))) as (H1 & H2 & H3 & H4).
      repeat (split; [assumption|]).
      intros c' Hc'. discriminate Hc'.
    + eexists; eexists;
        exists (generate_agents_md (d :: ds)
                  (title (replace_char "-" " " (project_name p)))).
      split; [reflexivity|].
      cbn [has_claude_dir has_agents_dir has_agents_md agents_md_valid
           discovered_agents issues actions_taken].
      do 4 (split; [reflexivity|]).
      destruct (Hwritten _ (generated_valid (d :: ds)
                              (title (replace_char "-" " " (project_name p)))))
        as (H1 & H2 & H3 & H4).
      repeat (split; [assumption|]).
      intros c' Hc'. discriminate Hc'.
Qed.

End DiscoverFacts.


Module AuditProperties.
Import Py Re ReSpec PyFacts ReFacts CaptureFacts Fs Audit AuditSpec AuditFacts
       ArchiveFacts DiscoverFacts Examples AuditExamples.

Example parse_api_agent :
  parse_agent_file (L "api.md") api_agent_file = Some (Some api_agent).
Proof. vm_compute. reflexivity. Qed.



(** X15.  [audit_project] repairs once: on the project that an audit
    with repair has left, another audit, with repair or without, changes
    nothing, takes no action, lists no issue, reports the project ready
    and finds the same agents. *)
Theorem audit_repairs_once (p : Project) (r : AuditResult) (p' : Project) :
  audit_project p true = Some (r, p') ->
  exists r',
    audit_project p' true = Some (r', p') /\
    audit_project p' false = Some (r', p') /\
    issues r' = [] /\ actions_taken r' = [] /\ is_ready r' = true /\
    discovered_agents r' = discovered_agents r.
Proof.
  intros H.
  destruct (audit_repair p)
    as (r0 & files' & content & H0 & _ & _ & _ & _ & Hreg & Hv & Hds & _).
  rewrite H0 in H. injection H as <- <-.
  unfold audit_project. cbn [agents_dir claude_dir tasks_dir project_name].
  rewrite Hds, Hreg, Hv. cbn [negb orb app].
  eexists. split; [reflexivity|]. split; [reflexivity|].
  repeat split.
Qed.

Lemma audit_repairs_once_witness :
  exists r p',
    audit_project agent_project true = Some (r, p') /\
    actions_taken r =
      [ L "Created .claude/tasks/ directory";
        L "Generated AGENTS.md from 1 discovered agents" ] /\
    exists r',
      audit_project p' true = Some (r', p') /\
      issues r' = [] /\ actions_taken r' = [] /\
      discovered_agents r' = [api_agent].
Proof.
  destruct (audit_project agent_project true) as [[r p']|] eqn:E;
    [|vm_compute in E; discriminate E].
  exists r, p'. split; [reflexivity|].
  destruct (audit_repairs_once agent_project r p' E) as (r' & H1 & _ & H2 & H3 & _ & H4).
  assert (G : actions_taken r =
              [ L "Created .claude/tasks/ directory";
                L "Generated AGENTS.md from 1 discovered agents" ] /\
              discovered_agents r = [api_agent]).
  { vm_compute in E. injection E as <- _. split; reflexivity. }
  destruct G as [G1 G2]. split; [exact G1|].
  exists r'. rewrite <- G2. repeat split; assumption.
Defined.





End AuditProperties.


Module StatsFacts.
Import Py Stats StatsSpec.
Local Open Scope Z_scope.

(** ** The dictionary *)

Lemma dict_get_set {V : Type} (k : Z) (v : V) (d : list (Z * V)) :
  dict_get k (dict_set k v d) = Some v.
Proof.
  induction d as [|[k' v'] d IH]; simpl.
  - rewrite Z.eqb_refl. reflexivity.
  - destruct (Z.eqb_spec k' k) as [E|E]; simpl.
    + rewrite Z.eqb_refl. reflexivity.
    + destruct (Z.eqb_spec k' k); [contradiction | exact IH].
Qed.

Lemma dict_get_set_other {V : Type} (k j : Z) (v : V) (d : list (Z * V)) :
  j <> k -> dict_get j (dict_set k v d) = dict_get j d.
Proof.
  intros H. induction d as [|[k' v'] d IH]; simpl.
  - destruct (Z.eqb_spec k j); [congruence | reflexivity].
  - destruct (Z.eqb_spec k' k) as [E|E]; simpl.
    + subst k'. destruct (Z.eqb_spec k j); [congruence | reflexivity].
    + destruct (Z.eqb_spec k' j); [reflexivity | exact IH].
Qed.

Lemma dict_get_in {V : Type} (k : Z) (v : V) (d : list (Z * V)) :
  dict_get k d = Some v -> In (k, v) d.
Proof.
  induction d as [|[k' v'] d IH]; simpl; [discriminate|].
  destruct (Z.eqb_spec k' k) as [->|_].
  - intros H; injection H as ->. left; reflexivity.
  - intros H. right. apply IH, H.
Qed.






(** ** What holds of the statistics after any calls *)





End StatsFacts.

Module StatsProperties.
Import Py Stats StatsSpec StatsFacts.
Local Open Scope Z_scope.

(** X18.  The phases of the statistics behave as a dictionary.
    [start_phase] files a fresh entry under the phase number, replacing
    the one that was there (its counts and its flag are lost), and
    leaves the other entries and the totals alone.  [end_phase] for a
    phase that was never started does nothing at all: its counts do not
    reach the totals.  [end_phase] for a started phase records the
    counts in the entry, sets its flag, keeps the start time and adds
    the counts to the totals. *)
Theorem phase_bookkeeping (stats : SessionStats) (n : Z) :
  (forall a d now,
     let stats' := start_phase stats n a d now in
     get_phase stats' n =
       Some {| phase_number := n; agent := a; description := d;
               start_time := Some now; end_time := None;
               input_tokens := 0; output_tokens := 0; completed := false |} /\
     (forall k, k <> n -> get_phase stats' k = get_phase stats k) /\
     total_input_tokens stats' = total_input_tokens stats /\
     total_output_tokens stats' = total_output_tokens stats) /\
  (forall i o now,
     get_phase stats n = None -> end_phase stats n i o now = stats) /\
  (forall ps i o now,
     get_phase stats n = Some ps ->
     let stats' := end_phase stats n i o now in
     get_phase stats' n =
       Some {| phase_number := phase_number ps; agent := agent ps;
               description := description ps;
               start_time := start_time ps; end_time := Some now;
               input_tokens := i; output_tokens := o; completed := true |} /\
     (forall k, k <> n -> get_phase stats' k = get_phase stats k) /\
     total_input_tokens stats' = total_input_tokens stats + i /\
     total_output_tokens stats' = total_output_tokens stats + o).
Proof.
  unfold get_phase. split; [|split].
  - intros a d now. cbv zeta. unfold start_phase.
    cbn [phases total_input_tokens total_output_tokens].
    split; [apply dict_get_set|]. split; [|split; reflexivity].
    intros k Hk. apply dict_get_set_other, Hk.
  - intros i o now H. unfold end_phase. rewrite H. reflexivity.
  - intros ps i o now H. cbv zeta. unfold end_phase. rewrite H.
    cbn [phases total_input_tokens total_output_tokens].
    split; [apply dict_get_set|]. split; [|split; reflexivity].
    intros k Hk. apply dict_get_set_other, Hk.
Qed.

Lemma phase_bookkeeping_witness :
  end_phase (new_stats 10%float) 1 500 70 20%float = new_stats 10%float /\
  total_input_tokens
    (end_phase (start_phase (new_stats 10%float) 1 (L "a") (L "x") 11%float)
       1 500 70 20%float) = 500.
Proof.
  split.
  - apply (proj1 (proj2 (phase_bookkeeping (new_stats 10%float) 1))). reflexivity.
  - destruct (proj2 (proj2 (phase_bookkeeping
                (start_phase (new_stats 10%float) 1 (L "a") (L "x") 11%float) 1))
              _ 500 70 20%float eq_refl) as (_ & _ & H & _).
    exact H.
Defined.



(** X20.  [get_phase_duration] has a value only for a phase that was
    started and ended: none for a phase without entry, none for a phase
    that was started and not ended, and for a phase started at [t0] and
    ended at [t1] the difference [t1 - t0], unless one of the two clock
    readings is zero, which reads as no time at all. *)
Theorem phase_duration (stats : SessionStats) (n : Z) :
  (get_phase stats n = None -> get_phase_duration stats n = None) /\
  (forall a d t0, get_phase_duration (start_phase stats n a d t0) n = None) /\
  (forall a d t0 i o t1,
     get_phase_duration (end_phase (start_phase stats n a d t0) n i o t1) n =
       if (truthy t0 && truthy t1)%bool then Some (PrimFloat.sub t1 t0) else None) /\
  (forall x, get_phase_duration stats n = Some x ->
     exists ps t0 t1,
       get_phase stats n = Some ps /\ start_time ps = Some t0 /\
       end_time ps = Some t1 /\ x = PrimFloat.sub t1 t0).
Proof.
  unfold get_phase, get_phase_duration. split; [|split; [|split]].
  - intros ->. reflexivity.
  - intros a d t0. unfold start_phase. cbn [phases].
    rewrite dict_get_set. reflexivity.
  - intros a d t0 i o t1. unfold end_phase, start_phase. cbn [phases].
    rewrite dict_get_set. cbn [phases phase_number agent description start_time].
    rewrite dict_get_set. reflexivity.
  - intros x. destruct (dict_get n (phases stats)) as [ps|]; [|discriminate].
    destruct (start_time ps) as [t0|] eqn:E0; [|discriminate].
    destruct (end_time ps) as [t1|] eqn:E1; [|discriminate].
    destruct (truthy t0 && truthy t1)%bool; [|discriminate].
    intros H; injection H as <-. exists ps, t0, t1. repeat split; assumption.
Qed.

Lemma phase_duration_witness :
  get_phase_duration (new_stats 10%float) 1 = None /\
  get_phase_duration
    (end_phase (start_phase (new_stats 10%float) 1 (L "a") (L "x") 100.5%float)
       1 500 70 130.75%float) 1 = Some 30.25%float /\
  get_phase_duration
    (end_phase (start_phase (new_stats 10%float) 1 (L "a") (L "x") 0%float)
       1 500 70 130.75%float) 1 = None.
Proof.
  split; [|split].
  - apply (proj1 (phase_duration (new_stats 10%float) 1)). reflexivity.
  - rewrite (proj1 (proj2 (proj2 (phase_duration (new_stats 10%float) 1)))).
    vm_compute. reflexivity.
  - rewrite (proj1 (proj2 (proj2 (phase_duration (new_stats 10%float) 1)))).
    vm_compute. reflexivity.
Defined.

End StatsProperties.


Module ScanFacts.
Import Py Re ReSpec PyFacts ReFacts CaptureFacts IntFacts Session SessionSpec
       SessionTotal ArchiveFacts StripFacts ClassFacts ScanSpec.

(** ** Cutting a text into lines *)






(** ** White space at the end of a line *)

Lemma dropwhile_split (p : ascii -> bool) (y : str) :
  exists sp, y = sp ++ dropwhile p y /\ forallb p sp = true.
Proof.
  induction y as [|a y (sp & IH & Hsp)]; [exists []; split; reflexivity|].
  simpl. destruct (p a) eqn:E.
  - exists (a :: sp). simpl. rewrite E, Hsp. split; [congruence | reflexivity].
  - exists []. split; reflexivity.
Qed.


Lemma rstrip_split (x : str) :
  exists sp, x = rstrip x ++ sp /\ forallb is_space sp = true.
Proof.
  unfold rstrip. destruct (dropwhile_split is_space (rev x)) as (sp & H & Hsp).
  exists (rev sp). split.
  - rewrite <- rev_app_distr, <- H, rev_involutive. reflexivity.
  - rewrite forallb_forall in *. intros a Ha. apply Hsp, in_rev, Ha.
Qed.







(** ** What the pattern of the phase list takes *)







End ScanFacts.


Module ScanProperties.
Import Py Re ReSpec PyFacts ReFacts CaptureFacts IntFacts Session SessionSpec
       SessionTotal ScanSpec ScanFacts Examples.



End ScanProperties.


Module CheckboxFacts.
Import Py Re ReSpec PyFacts ReFacts CaptureFacts IntFacts MatchFacts BlockFacts
       Session SessionSpec SessionTotal Orchestrator ScanSpec ScanFacts.

(** ** The shape of a check box *)

Lemma matches_checkbox prev s c p1 s1 c1 :
  matches re_checkbox prev s c p1 s1 c1 ->
  exists n b,
    s = (n ++ L ". [" ++ [b] ++ L "]") ++ s1 /\
    n <> [] /\ forallb is_digit n = true /\ is_x_or_blank b = true /\
    group c1 1 = Some [b].
Proof.
  unfold re_checkbox. intros H.
  inversion H as [| | | |? ? ? ? ? ? ? ? ? ? ? H1 H2| | | | | | | | | | | | | |]; subst.
  apply matches_plus_cls in H1 as (n & -> & Hn & Hnd & ->).
  inversion H2 as [| | | |? ? ? ? ? ? ? ? ? ? ? H3 H4| | | | | | | | | | | | | |]; subst.
  inversion H3; subst.
  inversion H4 as [| | | |? ? ? ? ? ? ? ? ? ? ? H5 H6| | | | | | | | | | | | | |]; subst.
  inversion H5 as [| | | | | | | | | | |? ? ? ? ? ? ? ? H7| | | | | | |]; subst.
  inversion H7; subst. inversion H6; subst.
  exists n, a. split; [rewrite <- !app_assoc; reflexivity|].
  repeat split; try assumption.
  cbn [group Nat.eqb]. f_equal.
  apply (firstn_app_exact [a]).
Qed.

Lemma checkbox_no_space_digit (n : str) (b : ascii) :
  n <> [] -> forallb is_digit n = true ->
  no_space_digit (n ++ L ". [" ++ [b] ++ L "]") = true.
Proof.
  intros Hne Hn. induction n as [|a n IH]; [congruence|].
  simpl in Hn. apply andb_true_iff in Hn as [Ha Hn].
  apply is_digit_not_space in Ha.
  destruct n as [|a' n].
  - cbn. rewrite Ha. cbn. rewrite andb_false_r. reflexivity.
  - change ((a :: a' :: n) ++ L ". [" ++ [b] ++ L "]")
      with (a :: (a' :: n) ++ L ". [" ++ [b] ++ L "]").
    cbn [no_space_digit app]. rewrite Ha. cbn [andb negb].
    apply IH; [discriminate | exact Hn].
Qed.

Lemma no_space_digit_cons (a b : ascii) (r : str) :
  no_space_digit (a :: b :: r) =
  (negb (is_space a && is_digit b) && no_space_digit (b :: r))%bool.
Proof. reflexivity. Qed.

Lemma space_digit_inside (x0 : str) (w d : ascii) (l : str) :
  is_space w = true -> is_digit d = true ->
  no_space_digit (x0 ++ w :: d :: l) = false.
Proof.
  intros Hw Hd. induction x0 as [|a x0 IH].
  - cbn [app]. rewrite no_space_digit_cons, Hw, Hd. reflexivity.
  - destruct x0 as [|b x0]; cbn [app] in *;
      rewrite no_space_digit_cons, IH; apply andb_false_r.
Qed.

Lemma last_or_nil (l : str) : l = [] \/ exists l0 a, l = l0 ++ [a].
Proof.
  destruct l as [|a l]; [left; reflexivity|]. right.
  destruct (exists_last (l := a :: l)) as (l0 & b & E); [discriminate|].
  exists l0, b. exact E.
Qed.

(** A check box that begins before a digit that follows white space ends
    before that digit. *)
Lemma checkbox_ends_before (x0 : str) (w d : ascii) (t box s' : str) :
  is_space w = true -> is_digit d = true ->
  no_space_digit box = true ->
  (x0 ++ [w]) ++ d :: t = box ++ s' ->
  exists x', x0 ++ [w] = box ++ x' /\ s' = x' ++ d :: t /\ after_space x'.
Proof.
  intros Hw Hd Hbox E.
  apply app_eq_app in E as [l [[E1 E2]|[E1 E2]]].
  - exists l. split; [exact E1|]. split; [exact E2|].
    destruct (last_or_nil l) as [->|(l0 & a & ->)]; [left; reflexivity|].
    right. exists l0, a. split; [reflexivity|].
    rewrite app_assoc in E1. apply app_inj_tail in E1 as [_ <-]. exact Hw.
  - destruct l as [|a l].
    + rewrite app_nil_r in E1. subst box. exists []. rewrite app_nil_r.
      split; [reflexivity|]. split; [symmetry; exact E2 | left; reflexivity].
    + exfalso. injection E2 as <- _. subst box.
      rewrite <- app_assoc in Hbox. cbn [app] in Hbox.
      rewrite space_digit_inside in Hbox by assumption. discriminate.
Qed.

(** ** The check box at the start of a text *)

Lemma m_checkbox_here (n : str) (b : ascii) (rest : str) prev :
  n <> [] -> forallb is_digit n = true -> is_x_or_blank b = true ->
  m re_checkbox done prev (n ++ L ". [" ++ [b] ++ L "]" ++ rest) [] =
    Some (Some "]"%char, rest, [(1, [b])]).
Proof.
  intros Hne Hn Hb. unfold re_checkbox. rewrite m_seq.
  apply m_plus_cls_run; [exact Hne | exact Hn | reflexivity |].
  rewrite m_seq.
  change (L ". [" ++ [b] ++ L "]" ++ rest) with (L ". [" ++ b :: "]"%char :: rest).
  rewrite m_lit_app, m_seq, m_group, m_cls_cons, Hb.
  pose proof (firstn_app_exact [b] ("]"%char :: rest)) as F.
  cbn [app] in F. rewrite F. clear F.
  change ("]"%char :: rest) with (L "]" ++ rest). rewrite m_lit_app.
  reflexivity.
Qed.

(** ** Every check box of a text is found *)

Lemma findall_reaches (n : str) (b : ascii) (rest : str) :
  n <> [] -> forallb is_digit n = true -> is_x_or_blank b = true ->
  forall fuel x prev,
    (length (x ++ n ++ L ". [" ++ [b] ++ L "]" ++ rest) < fuel)%nat ->
    after_space x ->
    In [b] (findall_from re_checkbox fuel prev
              (x ++ n ++ L ". [" ++ [b] ++ L "]" ++ rest)).
Proof.
  intros Hne Hn Hb.
  set (t := n ++ L ". [" ++ [b] ++ L "]" ++ rest).
  assert (Ht : exists d t', t = d :: t' /\ is_digit d = true).
  { unfold t. destruct n as [|d n]; [congruence|]. simpl in Hn.
    apply andb_true_iff in Hn as [Hd _]. eexists; eexists.
    split; [reflexivity | exact Hd]. }
  destruct Ht as (d & t' & Et & Hd).
  induction fuel as [|f IH]; intros x prev Hf Hx; [lia|].
  cbn [findall_from].
  destruct x as [|a x].
  - cbn [app]. unfold t at 1. rewrite m_checkbox_here by assumption.
    cbn [group Nat.eqb].
    destruct (Nat.ltb (length rest) (length t)); [left; reflexivity|].
    destruct t; left; reflexivity.
  - destruct (m re_checkbox done prev ((a :: x) ++ t) []) as [[[p' s'] c]|] eqn:E.
    + apply m_sound in E as (p1 & s1 & c1 & Hm & Hdone).
      injection Hdone as -> -> ->.
      apply matches_checkbox in Hm as (n' & b' & Hs & Hn' & Hnd' & Hb' & Hg).
      destruct Hx as [Hx|(x0 & w & Hx & Hw)]; [discriminate|].
      rewrite Hx, Et in Hs.
      apply checkbox_ends_before in Hs as (x' & E1 & E2 & Hx');
        [|assumption|assumption|apply checkbox_no_space_digit; assumption].
      rewrite <- Et in E2. subst s'.
      assert (Hlen : (length (x' ++ t) < length ((a :: x) ++ t))%nat).
      { rewrite Hx, E1, !length_app. destruct n'; [congruence|]. simpl. lia. }
      apply Nat.ltb_lt in Hlen. rewrite Hlen. right.
      apply IH; [|exact Hx']. apply Nat.ltb_lt in Hlen. lia.
    + cbn [app]. apply IH; [simpl in Hf; lia|].
      destruct Hx as [Hx|(x0 & w & Hx & Hw)]; [discriminate|].
      destruct x0 as [|a0 x0].
      * injection Hx as _ ->. left; reflexivity.
      * injection Hx as _ ->. right. exists x0, w. split; [reflexivity | exact Hw].
Qed.

(** ** Lines of a text *)

Lemma split_spec (c : ascii) (s : str) :
  exists w ws,
    split c s = w :: ws /\ (exists b, s = w ++ b) /\
    (forall l, In l ws -> exists a b, s = (a ++ [c]) ++ l ++ b).
Proof.
  induction s as [|x s (w & ws & E & (b0 & Hw) & Hws)].
  - exists [], []. split; [reflexivity|]. split; [exists []; reflexivity|].
    intros l [].
  - cbn [split]. rewrite E. destruct (Ascii.eqb_spec x c) as [->|Hx].
    + exists [], (w :: ws). split; [reflexivity|].
      split; [eexists; reflexivity|].
      intros l [<-|Hl].
      * exists [], b0. rewrite Hw. reflexivity.
      * destruct (Hws l Hl) as (a & b & ->). exists (c :: a), b. reflexivity.
    + exists (x :: w), ws. split; [reflexivity|].
      split; [exists b0; rewrite Hw; reflexivity|].
      intros l Hl. destruct (Hws l Hl) as (a & b & ->).
      exists (x :: a), b. reflexivity.
Qed.

Lemma line_in_text (s l : str) :
  In l (split nl s) -> exists a b, s = a ++ l ++ b /\ after_space a.
Proof.
  destruct (split_spec nl s) as (w & ws & E & (b0 & Hw) & Hws).
  rewrite E. intros [<-|Hl].
  - exists [], b0. split; [exact Hw | left; reflexivity].
  - destruct (Hws l Hl) as (a & b & ->). exists (a ++ [nl]), b.
    split; [reflexivity|]. right. exists a, nl. split; reflexivity.
Qed.

Lemma strip_inside (l : str) :
  exists sp sp', l = sp ++ strip l ++ sp' /\ forallb is_space sp = true.
Proof.
  destruct (dropwhile_split is_space l) as (sp & H & Hsp). fold (lstrip l) in H.
  destruct (rstrip_split (lstrip l)) as (sp' & H' & _). fold (strip l) in H'.
  exists sp, sp'. split; [|exact Hsp]. rewrite <- H'. exact H.
Qed.

Lemma after_space_app (a sp : str) :
  after_space a -> forallb is_space sp = true -> after_space (a ++ sp).
Proof.
  intros Ha Hsp. destruct (last_or_nil sp) as [->|(sp0 & w & ->)].
  - rewrite app_nil_r. exact Ha.
  - right. exists (a ++ sp0), w. split; [apply app_assoc|].
    rewrite forallb_app in Hsp. apply andb_true_iff in Hsp as [_ Hw].
    simpl in Hw. rewrite andb_true_r in Hw. exact Hw.
Qed.

(** The line of a phase that is not complete begins, white space apart,
    with a number and an empty check box. *)
Lemma open_phase_line (line : str) (p : Phase) :
  phase_of_line line = Some (Some p) -> complete p = false ->
  exists n rest,
    strip line = n ++ L ". [" ++ [" "%char] ++ L "]" ++ rest /\
    n <> [] /\ forallb is_digit n = true.
Proof.
  unfold phase_of_line.
  destruct (re_match re_phase_line (strip line)) as [mt|] eqn:E; [|discriminate].
  apply re_match_sound in E as (p1 & s1 & Hm).
  unfold re_phase_line in Hm. inv_matches.
  match goal with
  | |- context [firstn (length (?b :: ?z) - length ?z) (?b :: ?z)] =>
      pose proof (firstn_app_exact [b] z) as F;
      change ([b] ++ z) with (b :: z) in F; rewrite F; clear F
  end.
  cbn [group Nat.eqb].
  match goal with
  | Hd : forallb is_digit ?x = true, Hn : ?x <> [] |- _ =>
      destruct (int_of_digits x Hd Hn) as [_ [k ->]]
  end.
  intros Hp Hc. injection Hp as <-. cbn [complete] in Hc.
  match goal with
  | Hb : is_x_or_blank ?b = true, Hs : strip line = ?n ++ _ |- _ =>
      exists n; eexists; split; [|split; assumption];
      unfold is_x_or_blank in Hb;
      destruct (Ascii.eqb_spec b "x") as [->|_]; [discriminate Hc|];
      cbn [orb] in Hb; apply Ascii.eqb_eq in Hb; subst b; exact Hs
  end.
Qed.

End CheckboxFacts.


Module CliProperties.
Import Py Re ReSpec PyFacts ReFacts Session SessionSpec SessionTotal
       Orchestrator ScanSpec ScanFacts CheckboxFacts Examples.

Lemma phases_of_lines_in (lines : list str) (ps : list Phase) (p : Phase) :
  phases_of_lines lines = Some ps -> In p ps ->
  exists l, In l lines /\ phase_of_line l = Some (Some p).
Proof.
  revert ps. induction lines as [|l lines IH]; intros ps H Hp; simpl in H.
  - injection H as <-. destruct Hp.
  - destruct (phase_of_line l) as [r|] eqn:E; [|discriminate].
    destruct (phases_of_lines lines) as [qs|]; [|discriminate].
    injection H as <-.
    destruct r as [q|].
    + destruct Hp as [->|Hp].
      * exists l. split; [left; reflexivity | exact E].
      * destruct (IH qs eq_refl Hp) as (l' & Hl & Hl').
        exists l'. split; [right; exact Hl | exact Hl'].
    + destruct (IH qs eq_refl Hp) as (l' & Hl & Hl').
      exists l'. split; [right; exact Hl | exact Hl'].
Qed.

Lemma open_phase_not_complete (content : str) (p : Phase) :
  get_current_phase (Some content) = Some (Some p) ->
  contains (L "State: complete") content = false ->
  is_session_complete (Some content) = false.
Proof.
  unfold get_current_phase, parse_phases, is_session_complete.
  destruct (phases_of_lines (split nl content)) as [ps|] eqn:Eps; [|discriminate].
  intros H Hstate. injection H as H. rewrite Hstate.
  apply find_some in H as [Hin Hopen]. apply negb_true_iff in Hopen.
  destruct (phases_of_lines_in _ _ _ Eps Hin) as (l & Hl & Hline).
  destruct (line_in_text _ _ Hl) as (a & b & Hc & Ha).
  destruct (strip_inside l) as (sp & sp' & Hsp & Hspaces).
  destruct (open_phase_line l p Hline Hopen) as (n & rest & Hs & Hn & Hnd).
  assert (E : content =
              (a ++ sp) ++ n ++ L ". [" ++ [" "%char] ++ L "]" ++
              (rest ++ sp' ++ b)).
  { rewrite Hc, Hsp, Hs, <- !app_assoc. reflexivity. }
  assert (Hfound : In [" "%char] (re_findall re_checkbox content)).
  { unfold re_findall. rewrite E at 2.
    apply findall_reaches; try assumption; try reflexivity.
    - rewrite <- E. lia.
    - apply after_space_app; assumption. }
  apply andb_false_iff. right.
  destruct (forallb (fun x => str_eqb x (L "x")) (re_findall re_checkbox content))
    eqn:F; [|reflexivity].
  rewrite forallb_forall in F. specialize (F _ Hfound). discriminate F.
Qed.

(** X22.  The two tests of [main.py] that steer the loop agree: when
    [get_current_phase] finds a phase to work on in the session file and
    the text [State: complete] is nowhere in the file,
    [is_session_complete] does not find the session complete, so that
    the loop goes on with that phase.  This holds of every text: it does
    not have to be a session that the tools wrote. *)
Theorem open_phase_keeps_the_run_going (content : str) (p : Phase) :
  get_current_phase (Some content) = Some (Some p) ->
  contains (L "State: complete") content = false ->
  complete p = false /\
  is_session_complete (Some content) = false.
Proof.
  intros H Hstate. split; [|exact (open_phase_not_complete content p H Hstate)].
  unfold get_current_phase in H.
  destruct (parse_phases content) as [ps|]; [|discriminate].
  injection H as H. apply find_some in H as [_ H]. apply negb_true_iff, H.
Qed.

Lemma open_phase_keeps_the_run_going_witness :
  is_session_complete (Some scenario_doc) = false.
Proof.
  apply (open_phase_keeps_the_run_going scenario_doc
           (mkPhase 2 false (L "b") (L "y")));
    vm_compute; reflexivity.
Defined.

End CliProperties.


Module WrittenFacts.
Import Py Re ReSpec PyFacts ReFacts IntFacts MatchFacts StripFacts ClassFacts
       Session SessionSpec SessionTotal GrammarFacts PhaseSteps FitFacts
       Orchestrator ScanSpec ScanFacts CheckboxFacts.











End WrittenFacts.

Module WrittenProperties.
Import Py Session SessionSpec Orchestrator WrittenFacts CliProperties Examples
       RunExamples.



End WrittenProperties.


Module InitProperties.
Import Py Re ReSpec PyFacts ReFacts Fs Audit AuditSpec AuditFacts AuditClaims
       ArchiveFacts DiscoverFacts Init Examples AuditExamples.

Lemma init_template_valid (project_name : str) :
  validate_agents_md (Init.generate_minimal_agents_md project_name) = (true, []).
Proof.
  apply validate_all_present; [left|..]; unfold Init.generate_minimal_agents_md;
    find_mention.
Qed.




(** X24.  The registry that [init_command] writes for a project
    without agents, the template of [generate_minimal_agents_md] in
    [main.py], passes [validate_agents_md] whatever the name of the
    project: the check at the start of [run_orchestration] accepts
    it. *)
Theorem init_template_validates (project_name : str) :
  validate_agents_md (Init.generate_minimal_agents_md project_name) = (true, []) /\
  Init.generate_minimal_agents_md project_name <>
    Audit.generate_minimal_agents_md project_name.
Proof.
  split; [apply init_template_valid|].
  unfold Init.generate_minimal_agents_md, Audit.generate_minimal_agents_md.
  intros E. apply app_inv_head in E. apply app_inv_head in E.
  vm_compute in E. discriminate E.
Qed.



End InitProperties.


Module LoopFacts.
Import Py Session SessionTotal Orchestrator Stats StatsSpec StatsFacts Loop LoopSpec.
Local Open Scope Z_scope.






End LoopFacts.

Module LoopProperties.
Import Py Session SessionTotal Orchestrator Stats StatsSpec StatsFacts
       Loop LoopSpec LoopFacts Examples LoopExamples.
Local Open Scope Z_scope.




End LoopProperties.


Module DecodedFacts.
Import Py PySpec Re ReSpec PyFacts ReFacts CaptureFacts IntFacts DecimalFacts
       StripFacts ClassFacts Session SessionSpec SessionTotal ScanFacts
       DecodedSpec.
Local Open Scope Z_scope.

(** ** Texts that are stripped *)




(** ** Numbers read from digits *)




(** ** The fields one by one *)









End DecodedFacts.

Module DecodedProperties.
Import Py Re Session SessionSpec SessionTotal DecodedSpec DecodedFacts Examples.
Local Open Scope Z_scope.



End DecodedProperties.
